(** * StarLinkAlert: the queue-based Starlink monitor

    A shallow embedding of [StarLinkAlert.py].  The script polls a dish
    (ping + HTTP status fetch) every ten seconds from a background thread
    ([monitor_starlink_threaded]) and asks the Tk thread, through
    [gui_queue], to raise or dismiss a full-screen alarm window
    ([check_gui_queue], [show_visual_alarm_thread_safe],
    [dismiss_alarm_thread_safe]).

    Modelling choices.
    - The claims are stated over the queue-based design of lines
      222-362 ([run], from [boot]).  The first monitor of the file
      ([monitor_starlink], lines 138-214, which raises its alarm from a
      helper thread) is embedded after it, and the script with both
      monitors running is [main_run], from [main_boot].
    - The outside world of one poll cycle is a record [env]: what
      [os.system], [requests.get] and [time.sleep] do when called, and how
      the two notification transports behave.
    - Python exceptions are values of type [exn]; code that may raise runs
      in the error/state monad [M].  [except C] clauses are decided by
      [isinstance] over the class hierarchy.
    - The two threads interleave at the granularity of one loop iteration
      of the monitor ([Poll]), one run of [check_gui_queue] ([Tick]), one
      press of the dismiss button ([Click]) and one flash timer
      ([Flash]).  Only the Tk thread writes the alarm globals; the monitor
      reads [alarm_state] once per cycle, right before its [put].
    - [display_on_screen] records the message; the wall-clock prefix it
      prints is left out.  Widget layout and colours are left out.
    - [send_email_alert] and [send_pushbullet_alert] are called by the
      script but not defined in it; they follow section 4.4 of the
      specification. *)

From Stdlib Require Import List String ZArith Bool Lia DecimalString.

Import ListNotations.

Local Open Scope string_scope.

Local Open Scope Z_scope.

Local Open Scope list_scope.

(** ** Python values and exceptions *)

(** What [response.json()] can return.  [JNull] is Python's [None];
    numbers are carried as integers (only their being zero is ever
    looked at). *)
#[local] Set Warnings "-register-all".

Inductive json : Type :=
| JNull
| JBool (b : bool)
| JNum (n : Z)
| JStr (s : string)
| JArr (items : list json)
| JObj (members : list (string * json)).

(** Python truthiness, as used by [if current_dish_status:]. *)
Definition truthy (v : json) : bool :=
  match v with
  | JNull => false
  | JBool b => b
  | JNum n => negb (n =? 0)
  | JStr s => negb (String.eqb s "")
  | JArr items => match items with [] => false | _ => true end
  | JObj members => match members with [] => false | _ => true end
  end.

(** The exception classes that matter to the script: the builtins named
    in its [except] clauses and the hierarchy of [requests.exceptions]
    ([ConnectionError] is the one of [requests], [RequestTimeout] is
    [requests.exceptions.Timeout]). *)
Inductive exn_class : Type :=
| BaseException
| KeyboardInterrupt
| SystemExit
| Exception
| OSError
| ValueError
| RuntimeError
| RequestException
| HTTPError
| ConnectionError
| RequestTimeout
| ConnectTimeout
| ReadTimeout
| InvalidJSONError
| JSONDecodeError.

Definition exn_class_eqb (c d : exn_class) : bool :=
  match c, d with
  | BaseException, BaseException | KeyboardInterrupt, KeyboardInterrupt
  | SystemExit, SystemExit | Exception, Exception | OSError, OSError
  | ValueError, ValueError | RuntimeError, RuntimeError
  | RequestException, RequestException | HTTPError, HTTPError
  | ConnectionError, ConnectionError | RequestTimeout, RequestTimeout
  | ConnectTimeout, ConnectTimeout | ReadTimeout, ReadTimeout
  | InvalidJSONError, InvalidJSONError | JSONDecodeError, JSONDecodeError => true
  | _, _ => false
  end.

(** Direct base classes ([__bases__]). *)
Definition bases (c : exn_class) : list exn_class :=
  match c with
  | BaseException => []
  | KeyboardInterrupt | SystemExit | Exception => [BaseException]
  | OSError | ValueError | RuntimeError => [Exception]
  | RequestException => [OSError]
  | HTTPError | ConnectionError | RequestTimeout | InvalidJSONError => [RequestException]
  | ConnectTimeout => [ConnectionError; RequestTimeout]
  | ReadTimeout => [RequestTimeout]
  | JSONDecodeError => [InvalidJSONError; ValueError]
  end.

Fixpoint issubclass_upto (depth : nat) (c d : exn_class) : bool :=
  exn_class_eqb c d ||
  match depth with
  | O => false
  | S depth' => existsb (fun b => issubclass_upto depth' b d) (bases c)
  end.

(** The hierarchy is six levels deep. *)
Definition issubclass : exn_class -> exn_class -> bool := issubclass_upto 6.

Record exn : Type := mkExn { exn_type : exn_class; exn_str : string }.

Definition isinstance (e : exn) (c : exn_class) : bool := issubclass (exn_type e) c.

(** ** Pure error monad, for code that touches no shared state *)

Definition res (A : Type) : Type := (exn + A)%type.

Definition res_bind {A B : Type} (m : res A) (k : A -> res B) : res B :=
  match m with
  | inl e => inl e
  | inr a => k a
  end.

(** [try: m  except C: h] *)
Definition res_except {A : Type} (m : res A) (c : exn_class) (h : exn -> res A) : res A :=
  match m with
  | inl e => if isinstance e c then h e else inl e
  | inr a => inr a
  end.

(** ** Configuration (lines 11-12, 33) *)

Definition DISHY_IP : string := "192.168.100.1".

Definition CHECK_INTERVAL_SECONDS : Z := 10.

Definition flash_colors : list string := ["red"; "black"].

Definition str_of_Z (z : Z) : string := NilZero.string_of_int (Z.to_int z).

(** ** The probe: ping and status fetch *)

Record response : Type := mkResponse {
  status_code : Z;
  body_json : option json   (* [None]: the body is not valid JSON *)
}.

(** The outside world during one poll cycle. *)
Record env : Type := mkEnv {
  os_system : string -> res Z;                  (* exit status of a shell command *)
  requests_get : string -> Z -> res response;   (* url, timeout *)
  time_sleep : Z -> res unit;
  smtp_delivery : string -> string -> option exn;       (* [None]: delivered *)
  pushbullet_delivery : string -> string -> option exn
}.

(** [Response.raise_for_status]: an [HTTPError] exactly for 4xx and 5xx. *)
Definition raise_for_status (r : response) : res unit :=
  if (400 <=? status_code r) && (status_code r <? 500) then
    inl (mkExn HTTPError (str_of_Z (status_code r) ++ " Client Error"))
  else if (500 <=? status_code r) && (status_code r <? 600) then
    inl (mkExn HTTPError (str_of_Z (status_code r) ++ " Server Error"))
  else inr tt.

(** [Response.json]: a [requests.exceptions.JSONDecodeError] when the
    body does not parse. *)
Definition response_json (r : response) : res json :=
  match body_json r with
  | Some v => inr v
  | None => inl (mkExn JSONDecodeError "Expecting value")
  end.

Definition check_dish_ping (w : env) (ip_address : string) : res bool :=
  res_bind (os_system w ("ping -c 1 -W 1 " ++ ip_address ++ " > /dev/null 2>&1"))
    (fun response => inr (response =? 0)).

Definition get_dish_status_json (w : env) (ip_address : string) : res json :=
  res_except
    (res_bind (requests_get w ("http://" ++ ip_address ++ "/DishyStatus") 5) (fun response =>
     res_bind (raise_for_status response) (fun _ =>
     response_json response)))
    RequestException
    (fun e => inr JNull).

(** ** Shared state of the two threads *)

Definition window : Type := nat.

(** What the monitor puts on [gui_queue]: [dismiss_alarm_thread_safe]
    itself, or a closure [lambda: show_visual_alarm_thread_safe(msg)]. *)
Inductive callback : Type :=
| CbDismiss
| CbShow (alert_message : string).

(** Observable history, oldest first. *)
Inductive event : Type :=
| Printed (message : string)                  (* display_on_screen *)
| EmailSent (subject body : string)           (* send_email_alert called *)
| PushSent (title body : string)              (* send_pushbullet_alert called *)
| DeliveryFailed (sink : string) (e : exn)    (* caught and logged inside a sink *)
| Enqueued (cb : callback)                    (* gui_queue.put *)
| Applied (cb : callback)                     (* callback() in check_gui_queue *)
| Slept (seconds : Z)
| WindowCreated (w : window) (alert_message : string)
| WindowDestroyed (w : window).

(** Locals of [monitor_starlink_threaded]. *)
Record locals : Type := mkLocals {
  dish_online_previous_state : bool;
  dish_status_previous : json
}.

Record system : Type := mkSystem {
  (* module globals, lines 30-32 *)
  alarm_window : option window;
  alarm_state : bool;
  flash_color_index : nat;
  (* Tk: the Toplevel windows that exist, and the next fresh one *)
  toplevels : list window;
  tk_fresh : window;
  (* queue.Queue(), head first *)
  gui_queue : list callback;
  (* the monitor thread: [None] once it has exited *)
  monitor : option locals;
  history : list event
}.

Definition set_alarm_window (v : option window) (s : system) : system :=
  mkSystem v (alarm_state s) (flash_color_index s) (toplevels s) (tk_fresh s)
           (gui_queue s) (monitor s) (history s).

Definition set_alarm_state (v : bool) (s : system) : system :=
  mkSystem (alarm_window s) v (flash_color_index s) (toplevels s) (tk_fresh s)
           (gui_queue s) (monitor s) (history s).

Definition set_flash_color_index (v : nat) (s : system) : system :=
  mkSystem (alarm_window s) (alarm_state s) v (toplevels s) (tk_fresh s)
           (gui_queue s) (monitor s) (history s).

Definition set_toplevels (v : list window) (s : system) : system :=
  mkSystem (alarm_window s) (alarm_state s) (flash_color_index s) v (tk_fresh s)
           (gui_queue s) (monitor s) (history s).

Definition set_tk_fresh (v : window) (s : system) : system :=
  mkSystem (alarm_window s) (alarm_state s) (flash_color_index s) (toplevels s) v
           (gui_queue s) (monitor s) (history s).

Definition set_gui_queue (v : list callback) (s : system) : system :=
  mkSystem (alarm_window s) (alarm_state s) (flash_color_index s) (toplevels s) (tk_fresh s)
           v (monitor s) (history s).

Definition set_monitor (v : option locals) (s : system) : system :=
  mkSystem (alarm_window s) (alarm_state s) (flash_color_index s) (toplevels s) (tk_fresh s)
           (gui_queue s) v (history s).

Definition log (e : event) (s : system) : system :=
  mkSystem (alarm_window s) (alarm_state s) (flash_color_index s) (toplevels s) (tk_fresh s)
           (gui_queue s) (monitor s) (history s ++ [e]).

(** ** The error/state monad of the threads *)

Definition M (A : Type) : Type := system -> res A * system.

Definition ret {A : Type} (a : A) : M A := fun s => (inr a, s).

Definition raise {A : Type} (e : exn) : M A := fun s => (inl e, s).

Definition bind {A B : Type} (m : M A) (k : A -> M B) : M B :=
  fun s => match m s with
           | (inl e, s') => (inl e, s')
           | (inr a, s') => k a s'
           end.

Definition lift {A : Type} (r : res A) : M A := fun s => (r, s).

Definition get {A : Type} (f : system -> A) : M A := fun s => (inr (f s), s).

Definition modify (f : system -> system) : M unit := fun s => (inr tt, f s).

Declare Scope monitor_scope.

Delimit Scope monitor_scope with mon.

Notation "x <- m ;; k" := (bind m (fun x => k))
  (at level 61, m at next level, right associativity) : monitor_scope.

Notation "m ;; k" := (bind m (fun _ => k))
  (at level 61, right associativity) : monitor_scope.

Local Open Scope monitor_scope.

Definition when (b : bool) (m : M unit) : M unit := if b then m else ret tt.

(** [try: body  finally: cleanup] *)
Definition try_finally {A : Type} (body : M A) (cleanup : M unit) : M A :=
  fun s => match body s with
           | (r, s') => match cleanup s' with
                        | (inl e, s'') => (inl e, s'')
                        | (inr _, s'') => (r, s'')
                        end
           end.

(** ** Notification (lines 37-39 and the two sinks) *)

Definition display_on_screen (message : string) : M unit :=
  modify (log (Printed message)).

(** Modelled from the spec: [send_email_alert] is called by the monitor
    loop but defined nowhere in the source.  Section 4.4: each sink
    invocation is wrapped so that a delivery failure is caught, logged,
    and does not prevent the remaining sinks or the loop from running. *)
Definition send_email_alert (w : env) (subject body : string) : M unit :=
  modify (log (EmailSent subject body)) ;;
  match smtp_delivery w subject body with
  | None => ret tt
  | Some e => modify (log (DeliveryFailed "email" e))
  end.

(** Modelled from the spec: [send_pushbullet_alert] is called by the
    monitor loop but defined nowhere in the source.  Section 4.4, as for
    [send_email_alert]. *)
Definition send_pushbullet_alert (w : env) (title body : string) : M unit :=
  modify (log (PushSent title body)) ;;
  match pushbullet_delivery w title body with
  | None => ret tt
  | Some e => modify (log (DeliveryFailed "push" e))
  end.

(** ** The Tk side (lines 231-300) *)

Fixpoint remove_window (w : window) (ws : list window) : list window :=
  match ws with
  | [] => []
  | x :: ws' => if Nat.eqb x w then remove_window w ws' else x :: remove_window w ws'
  end.

(** [alarm_window.destroy()] *)
Definition destroy (w : window) (s : system) : system :=
  log (WindowDestroyed w) (set_toplevels (remove_window w (toplevels s)) s).

(** [tk.Toplevel(root)] and the widgets packed into it. *)
Definition new_toplevel (alert_message : string) (s : system) : window * system :=
  let w := tk_fresh s in
  (w, log (WindowCreated w alert_message)
        (set_tk_fresh (S w) (set_toplevels (w :: toplevels s) s))).

Definition show_visual_alarm_thread_safe (alert_message : string) (s : system) : system :=
  if alarm_state s then s
  else
    let s := set_alarm_state true s in
    let s := set_flash_color_index 0%nat s in
    let (w, s) := new_toplevel alert_message s in
    set_alarm_window (Some w) s.

Definition dismiss_alarm_thread_safe (s : system) : system :=
  let s := match alarm_window s with
           | Some w => set_alarm_window None (destroy w s)
           | None => s
           end in
  let s := set_alarm_state false s in
  log (Printed "Alarm dismissed.") s.

Definition flash_background_thread_safe (s : system) : system :=
  match alarm_window s with
  | Some _ =>
      if alarm_state s
      then set_flash_color_index
             (Nat.modulo (flash_color_index s + 1) (List.length flash_colors)) s
      else s
  | None => s
  end.

Definition call (cb : callback) (s : system) : system :=
  match cb with
  | CbDismiss => dismiss_alarm_thread_safe s
  | CbShow alert_message => show_visual_alarm_thread_safe alert_message s
  end.

(** The [while True] of [check_gui_queue]: [get_nowait] pops the head,
    the callback runs, until [queue.Empty].  No callback touches the
    queue, so the loop runs once per pending entry. *)
Fixpoint drain (pending : list callback) (s : system) : system :=
  match pending with
  | [] => s
  | callback :: rest =>
      let s := set_gui_queue rest s in
      let s := log (Applied callback) s in
      drain rest (call callback s)
  end.

Definition check_gui_queue (s : system) : system := drain (gui_queue s) s.

(** ** The monitor thread (lines 303-350) *)

(** [gui_queue.put]: the queue is unbounded, the call never blocks. *)
Definition gui_queue_put (cb : callback) : M unit :=
  modify (fun s => log (Enqueued cb) (set_gui_queue (gui_queue s ++ [cb]) s)).

Definition sleep (w : env) (seconds : Z) : M unit :=
  lift (time_sleep w seconds) ;;
  modify (log (Slept seconds)).

(** One iteration of the [while True:] (lines 313-338). *)
Definition loop_body (w : env) (l : locals) : M unit :=
  dish_online_current_state <- lift (check_dish_ping w DISHY_IP) ;;
  current_dish_status <- lift (get_dish_status_json w DISHY_IP) ;;
  (if dish_online_current_state then
     when (negb (dish_online_previous_state l))
       (display_on_screen "Starlink Dish is now ONLINE." ;;
        send_email_alert w "Starlink Alert" "Starlink Dish is back online!" ;;
        send_pushbullet_alert w "Starlink Online" "Your Starlink dish is now online." ;;
        raised <- get alarm_state ;;
        when raised (gui_queue_put CbDismiss)) ;;
     when (truthy current_dish_status) (ret tt)
   else
     when (dish_online_previous_state l)
       (display_on_screen "WARNING: Starlink Dish has gone OFFLINE!" ;;
        send_email_alert w "Starlink CRITICAL Alert"
          "WARNING: Starlink Dish has gone OFFLINE! Check connection or if moved." ;;
        send_pushbullet_alert w "Starlink Offline!"
          "WARNING: Your Starlink dish has gone offline!" ;;
        raised <- get alarm_state ;;
        when (negb raised) (gui_queue_put (CbShow "STARLINK OFFLINE! Check Dish!")))) ;;
  modify (set_monitor (Some (mkLocals dish_online_current_state current_dish_status))) ;;
  sleep w CHECK_INTERVAL_SECONDS.

(** The [except] clauses around the loop (lines 340-348). *)
Definition except_clauses (w : env) (e : exn) : M unit :=
  if isinstance e KeyboardInterrupt then
    display_on_screen "Starlink Monitor stopped by user (via console)."
  else if isinstance e Exception then
    display_on_screen ("An unexpected error occurred in monitoring: " ++ exn_str e) ;;
    send_email_alert w "Starlink Monitor Error" ("An unexpected error occurred: " ++ exn_str e) ;;
    send_pushbullet_alert w "Monitor Error" ("An unexpected error occurred: " ++ exn_str e) ;;
    raised <- get alarm_state ;;
    when (negb raised) (gui_queue_put (CbShow ("MONITOR ERROR: " ++ exn_str e)))
  else raise e.

(** The [finally] clause (lines 349-350). *)
Definition finally_clause : M unit :=
  display_on_screen "Background monitoring thread exiting.".

(** Lines 305-309: the two start-up messages and the initial locals. *)
Definition monitor_start (s : system) : system :=
  let s := log (Printed "Starlink Monitor started in background thread.") s in
  let s := log (Printed ("Checking dish at " ++ DISHY_IP ++ " every "
                         ++ str_of_Z CHECK_INTERVAL_SECONDS ++ " seconds.")) s in
  set_monitor (Some (mkLocals false JNull)) s.

(** One poll cycle of the thread.  The [try] statement encloses the
    whole [while True:], so an exception escaping the body leaves the
    loop: the matching [except] clause runs, then [finally], and the
    thread function returns (or the exception propagates); either way
    the thread is gone. *)
Definition poll (w : env) (s : system) : system :=
  match monitor s with
  | None => s
  | Some l =>
      match loop_body w l s with
      | (inr _, s') => s'
      | (inl e, s') =>
          set_monitor None (snd (try_finally (except_clauses w e) finally_clause s'))
      end
  end.

(** [monitor_starlink_threaded] running alone through the poll cycles
    whose worlds are [ws]. *)
Definition monitor_starlink_threaded (ws : list env) (s : system) : system :=
  fold_left (fun s w => poll w s) ws (monitor_start s).

(** ** The two threads as a transition system *)

Inductive action : Type :=
| Poll (w : env)   (* the monitor thread runs one loop iteration *)
| Tick             (* Tk runs check_gui_queue *)
| Click            (* DISMISS ALARM pressed, or the window closed *)
| Flash.           (* the 500ms flash timer fires *)

Definition step (s : system) (a : action) : system :=
  match a with
  | Poll w => poll w s
  | Tick => check_gui_queue s
  | Click => dismiss_alarm_thread_safe s
  | Flash => flash_background_thread_safe s
  end.

Definition run (s : system) (acts : list action) : system := fold_left step acts s.

(** Module initialisation (lines 30-32, 228): no window, no alarm, an
    empty queue, no thread yet. *)
Definition initial : system := mkSystem None false 0%nat [] 0%nat [] None [].

(** The state in which the two threads start racing (lines 354-362). *)
Definition boot : system := monitor_start initial.

(** ** Worlds used in examples *)

Definition quiet_world (reachable : bool) (http : res response) : env :=
  mkEnv (fun _ => inr (if reachable then 0 else 1))
        (fun _ _ => http)
        (fun _ => inr tt)
        (fun _ _ => None)
        (fun _ _ => None).

Definition no_route : res response := inl (mkExn ConnectionError "No route to host").

Definition ok_status : res response :=
  inr (mkResponse 200 (Some (JObj [("stowed", JBool false)]))).

Definition online : env := quiet_world true ok_status.

Definition offline : env := quiet_world false no_route.

(** ** Reading a history *)

Definition enqueued (h : list event) : list callback :=
  flat_map (fun e => match e with Enqueued cb => [cb] | _ => [] end) h.

Definition applied (h : list event) : list callback :=
  flat_map (fun e => match e with Applied cb => [cb] | _ => [] end) h.

(** The raise commands among some callbacks. *)
Definition shows (q : list callback) : list string :=
  flat_map (fun cb => match cb with CbShow m => [m] | CbDismiss => [] end) q.

(** Calls to the two notification sinks. *)
Definition notifications (h : list event) : list event :=
  filter (fun e => match e with EmailSent _ _ | PushSent _ _ => true | _ => false end) h.

(** Messages shown by [display_on_screen]. *)
Definition messages (h : list event) : list string :=
  flat_map (fun e => match e with Printed m => [m] | _ => [] end) h.

(** Alarm surfaces created. *)
Definition surfaces_created (h : list event) : list window :=
  flat_map (fun e => match e with WindowCreated w _ => [w] | _ => [] end) h.

(** What a step added to the history. *)
Definition emitted (s s' : system) : list event :=
  skipn (List.length (history s)) (history s').

(** The probe outcome of a cycle in which no call fails: the ping
    result and the fetched payload. *)
Definition probe (w : env) : option (bool * json) :=
  match check_dish_ping w DISHY_IP,
        get_dish_status_json w DISHY_IP,
        time_sleep w CHECK_INTERVAL_SECONDS with
  | inr reachable, inr payload, inr _ => Some (reachable, payload)
  | _, _, _ => None
  end.

(** ** The Transition Detector, in the words of the specification *)

Inductive transition : Type := OfflineToOnline | OnlineToOffline.

(** Section 4.1: a transition is emitted only when [next <> previous];
    connectivity is written as the reachability flag ([true] = Online). *)
Definition detect (previous next : bool) : option transition :=
  if Bool.eqb next previous then None
  else Some (if next then OfflineToOnline else OnlineToOffline).

(** The detector run over a sequence of readings; the bootstrap takes
    [previous = Offline]. *)
Fixpoint detect_all (previous : bool) (readings : list bool) : list (option transition) :=
  match readings with
  | [] => []
  | next :: rest => detect previous next :: detect_all next rest
  end.

(** ** Footprints of the two threads *)

(** A relation [R] between the state before and after holds for a
    whole computation, whatever its outcome. *)
Definition within (R : system -> system -> Prop) {A : Type} (m : M A) : Prop :=
  forall s, R s (snd (m s)).

(** The footprint of the monitor thread: it leaves the alarm globals
    and the windows alone, it only appends to the history and to the
    queue, it applies nothing itself, and while the alarm is raised it
    enqueues no raise command. *)
Record grows (s s' : system) : Prop := mkGrows {
  grows_window : alarm_window s' = alarm_window s;
  grows_state : alarm_state s' = alarm_state s;
  grows_flash : flash_color_index s' = flash_color_index s;
  grows_toplevels : toplevels s' = toplevels s;
  grows_fresh : tk_fresh s' = tk_fresh s;
  grows_history :
    exists new,
      history s' = history s ++ new /\
      gui_queue s' = gui_queue s ++ enqueued new /\
      applied new = [] /\
      surfaces_created new = [] /\
      (alarm_state s = true -> shows (enqueued new) = [])
}.

(** The Tk side never touches the monitor thread or the notification
    sinks, and enqueues nothing. *)
Record gui_only (s s' : system) : Prop := mkGuiOnly {
  gui_monitor : monitor s' = monitor s;
  gui_history :
    exists new,
      history s' = history s ++ new /\
      enqueued new = [] /\ notifications new = []
}.

(** ** Coherence of the alarm globals

    In every state the program can reach, the alarm flag is set exactly
    when [alarm_window] holds a window, that window is the only
    Toplevel, and no raise command is pending while the alarm is up. *)

Definition window_list (o : option window) : list window :=
  match o with Some w => [w] | None => [] end.

Definition is_some {A : Type} (o : option A) : bool :=
  match o with Some _ => true | None => false end.

Record coherent (s : system) : Prop := mkCoherent {
  coh_toplevels : toplevels s = window_list (alarm_window s);
  coh_state : alarm_state s = is_some (alarm_window s);
  coh_pending : alarm_state s = true -> shows (gui_queue s) = []
}.

(** The part of coherence the Tk callbacks maintain on their own. *)
Definition windows_coherent (s : system) : Prop :=
  toplevels s = window_list (alarm_window s) /\
  alarm_state s = is_some (alarm_window s).

(** ** The events of a poll cycle in which no call fails *)

Definition sink_log (sink : string) (outcome : option exn) : list event :=
  match outcome with
  | None => []
  | Some e => [DeliveryFailed sink e]
  end.

(** The events of one call to each sink. *)
Definition notify_events (w : env) (subject body title text : string) : list event :=
  (EmailSent subject body :: sink_log "email" (smtp_delivery w subject body)) ++
  (PushSent title text :: sink_log "push" (pushbullet_delivery w title text)).

Definition online_events (w : env) : list event :=
  Printed "Starlink Dish is now ONLINE." ::
  notify_events w "Starlink Alert" "Starlink Dish is back online!"
                  "Starlink Online" "Your Starlink dish is now online.".

Definition offline_events (w : env) : list event :=
  Printed "WARNING: Starlink Dish has gone OFFLINE!" ::
  notify_events w "Starlink CRITICAL Alert"
                  "WARNING: Starlink Dish has gone OFFLINE! Check connection or if moved."
                  "Starlink Offline!" "WARNING: Your Starlink dish has gone offline!".

(** Everything a cycle adds to the history, by previous reading,
    current reading and alarm flag. *)
Definition cycle_events (w : env) (previous current raised : bool) : list event :=
  match previous, current with
  | false, true =>
      online_events w ++ (if raised then [Enqueued CbDismiss] else [])
  | true, false =>
      offline_events w ++
      (if raised then [] else [Enqueued (CbShow "STARLINK OFFLINE! Check Dish!")])
  | _, _ => []
  end ++ [Slept CHECK_INTERVAL_SECONDS].


(** * Vocabulary of the claims *)

(** ** Outcomes of the status fetch (C8) *)




(** ** Reports of a run (C1) *)

(** What the console and the sinks saw. *)
Definition observed (evs : list event) : list string * list event :=
  (messages evs, notifications evs).

(** What reporting a transition consists of (lines 318-320, 329-331). *)
Definition report (t : option transition) : list string * list event :=
  match t with
  | None => ([], [])
  | Some OfflineToOnline =>
      (["Starlink Dish is now ONLINE."],
       [EmailSent "Starlink Alert" "Starlink Dish is back online!";
        PushSent "Starlink Online" "Your Starlink dish is now online."])
  | Some OnlineToOffline =>
      (["WARNING: Starlink Dish has gone OFFLINE!"],
       [EmailSent "Starlink CRITICAL Alert"
          "WARNING: Starlink Dish has gone OFFLINE! Check connection or if moved.";
        PushSent "Starlink Offline!" "WARNING: Your Starlink dish has gone offline!"])
  end.

(** What each poll cycle of a run reported, cycle by cycle. *)
Fixpoint reports (s : system) (acts : list action) : list (list string * list event) :=
  match acts with
  | [] => []
  | Poll w :: rest => observed (emitted s (poll w s)) :: reports (poll w s) rest
  | a :: rest => reports (step s a) rest
  end.

(** The ping results of the poll cycles of a run. *)
Definition readings (acts : list action) : list bool :=
  flat_map (fun a => match a with
                     | Poll w => match probe w with
                                 | Some (reachable, _) => [reachable]
                                 | None => []
                                 end
                     | _ => []
                     end) acts.

(** Every poll cycle of the run gets its probe outcome: no call fails. *)
Definition no_failure (acts : list action) : Prop :=
  Forall (fun a => match a with Poll w => probe w <> None | _ => True end) acts.

(** ** A dish that never answers (C10) *)



(** ** The events of a poll cycle in which a call fails (C3) *)

(** What the [except Exception] clause and the [finally] clause add to
    the history. *)
Definition error_events (w : env) (e : exn) (raised : bool) : list event :=
  (Printed ("An unexpected error occurred in monitoring: " ++ exn_str e) ::
   notify_events w "Starlink Monitor Error" ("An unexpected error occurred: " ++ exn_str e)
                   "Monitor Error" ("An unexpected error occurred: " ++ exn_str e)) ++
  (if raised then [] else [Enqueued (CbShow ("MONITOR ERROR: " ++ exn_str e))]) ++
  [Printed "Background monitoring thread exiting."].

(** A world whose status fetch raises something [requests] does not
    wrap. *)
Definition crashing : env := quiet_world false (inl (mkExn ValueError "boom")).

(** ** Delivery failures (C4) *)

(** Delivery failures the sinks caught and logged. *)
Definition failures (h : list event) : list (string * exn) :=
  flat_map (fun ev => match ev with DeliveryFailed sink e => [(sink, e)] | _ => [] end) h.

Definition failure_of (sink : string) (outcome : option exn) : list (string * exn) :=
  match outcome with
  | None => []
  | Some e => [(sink, e)]
  end.

(** A world in which the mail server cannot be reached. *)
Definition mail_down : env :=
  mkEnv (fun _ => inr 0) (fun _ _ => ok_status) (fun _ => inr tt)
        (fun _ _ => Some (mkExn OSError "Connection refused"))
        (fun _ _ => None).

(** ** An idle alarm (C7) *)


(** ** States and steps up to the stored payload (C9) *)

(** The state with the stored payload blanked. *)
Definition forget_status (s : system) : system :=
  set_monitor
    (option_map (fun l => mkLocals (dish_online_previous_state l) JNull) (monitor s)) s.

(** Two states that differ at most in the stored payload. *)
Definition alike (s1 s2 : system) : Prop := forget_status s1 = forget_status s2.

(** A state update that does not look at the stored payload. *)
Definition blind (f : system -> system) : Prop :=
  forall s1 s2, alike s1 s2 -> alike (f s1) (f s2).

(** Monitor code that does not look at the stored payload: on alike
    states it has the same outcome and leaves alike states. *)
Definition oblivious {A : Type} (m : M A) : Prop :=
  forall s1 s2, alike s1 s2 ->
    fst (m s1) = fst (m s2) /\ alike (snd (m s1)) (snd (m s2)).

(** Two steps that agree on everything but the payload the status fetch
    returned. *)
Inductive same_reachability : action -> action -> Prop :=
| same_step (a : action) : same_reachability a a
| same_probe (w1 w2 : env) (reachable : bool) (p1 p2 : json) :
    probe w1 = Some (reachable, p1) ->
    probe w2 = Some (reachable, p2) ->
    (forall x y, smtp_delivery w1 x y = smtp_delivery w2 x y) ->
    (forall x y, pushbullet_delivery w1 x y = pushbullet_delivery w2 x y) ->
    same_reachability (Poll w1) (Poll w2).

(** The dish answers, stowed. *)
Definition online_stowed : env :=
  quiet_world true (inr (mkResponse 200 (Some (JObj [("stowed", JBool true)])))).

(** * Vocabulary of further properties *)

(** ** The flash colour *)

(** Line 297: [current_color = flash_colors[flash_color_index]];
    [None] stands for the [IndexError] of an index out of range. *)
Definition current_color (s : system) : option string :=
  nth_error flash_colors (flash_color_index s).

(** ** Runs in which the queue is drained after every poll *)

(** The Tk timer fires every 100ms and a poll cycle sleeps ten seconds:
    each poll is followed by a tick before the next one. *)
Definition drained_run (ws : list env) : list action :=
  flat_map (fun w => [Poll w; Tick]) ws.

(** The alarm follows the last reading and whether the dish was ever
    seen online. *)
Record tracking (previous seen : bool) (s : system) : Prop := mkTracking {
  tracking_monitor : exists l, monitor s = Some l /\ dish_online_previous_state l = previous;
  tracking_queue : gui_queue s = [];
  tracking_windows : windows_coherent s;
  tracking_alarm : alarm_state s = negb previous && seen;
  tracking_seen : previous = true -> seen = true
}.

(** ** Worlds used in further examples *)

(** Only the dish is down: every other host answers the ping, every
    other URL answers with a status document. *)
Definition elsewhere_fine : env :=
  mkEnv (fun command =>
           if String.eqb command "ping -c 1 -W 1 192.168.100.1 > /dev/null 2>&1"
           then inr 1 else inr 0)
        (fun url _ =>
           if String.eqb url "http://192.168.100.1/DishyStatus" then no_route else ok_status)
        (fun _ => inr tt) (fun _ _ => None) (fun _ _ => None).

(** The user interrupts the sleep. *)
Definition interrupted : env :=
  mkEnv (fun _ => inr 1) (fun _ _ => no_route)
        (fun _ => inl (mkExn KeyboardInterrupt ""))
        (fun _ _ => None) (fun _ _ => None).

(** * The first monitor of the script (lines 43-214)

    The script still starts the monitor it was first written with
    (lines 216-220): a second polling thread, [monitor_starlink], which
    dismisses the alarm itself and raises it by starting a thread on
    [show_visual_alarm].  It shares the alarm globals, the console and
    the sinks with the queue-based design. *)

(** Lines 43-50. *)
Definition dismiss_alarm (s : system) : system :=
  let s := match alarm_window s with
           | Some w => set_alarm_window None (destroy w s)
           | None => s
           end in
  let s := set_alarm_state false s in
  log (Printed "Alarm dismissed.") s.

(** Lines 52-59. *)
Definition flash_background (s : system) : system :=
  match alarm_window s with
  | Some _ =>
      if alarm_state s
      then set_flash_color_index
             (Nat.modulo (flash_color_index s + 1) (List.length flash_colors)) s
      else s
  | None => s
  end.

(** Lines 61-113, up to the point where the thread enters its
    [mainloop]: the window is a [tk.Tk()] of its own, and the first
    flash is run at once. *)
Definition show_visual_alarm (alert_message : string) (s : system) : system :=
  if alarm_state s then s
  else
    let s := set_alarm_state true s in
    let s := set_flash_color_index 0%nat s in
    let (w, s) := new_toplevel alert_message s in
    let s := set_alarm_window (Some w) s in
    flash_background s.

(** [alarm_window.quit()] stops the event loop of the window; the
    window is not destroyed and no global is written. *)
Definition tk_quit (w : window) (s : system) : system := s.

(** The script as a whole: the shared state, the locals of
    [monitor_starlink] ([None] once it has exited) and the alarm threads
    it has started that have not run yet (each with the message it was
    given). *)
Record program : Type := mkProgram {
  shared : system;
  legacy_locals : option locals;
  alarm_threads : list string
}.

Definition LM (A : Type) : Type := program -> res A * program.

Definition lret {A : Type} (a : A) : LM A := fun p => (inr a, p).
Definition lraise {A : Type} (e : exn) : LM A := fun p => (inl e, p).
Definition lbind {A B : Type} (m : LM A) (k : A -> LM B) : LM B :=
  fun p => match m p with
           | (inl e, p') => (inl e, p')
           | (inr a, p') => k a p'
           end.

(** Code of the queue-based design run on the shared state. *)
Definition on_shared {A : Type} (m : M A) : LM A :=
  fun p => match m (shared p) with
           | (r, s') => (r, mkProgram s' (legacy_locals p) (alarm_threads p))
           end.

Definition set_legacy_locals (v : option locals) : LM unit :=
  fun p => (inr tt, mkProgram (shared p) v (alarm_threads p)).

(** [threading.Thread(target=show_visual_alarm, args=(msg,)).start()] *)
Definition start_alarm_thread (alert_message : string) : LM unit :=
  fun p => (inr tt, mkProgram (shared p) (legacy_locals p)
                              (alarm_threads p ++ [alert_message])).

Declare Scope legacy_scope.
Delimit Scope legacy_scope with legacy.
Notation "x <- m ;; k" := (lbind m (fun x => k))
  (at level 61, m at next level, right associativity) : legacy_scope.
Notation "m ;; k" := (lbind m (fun _ => k))
  (at level 61, right associativity) : legacy_scope.

Definition lwhen (b : bool) (m : LM unit) : LM unit := if b then m else lret tt.

Definition ltry_finally {A : Type} (body : LM A) (cleanup : LM unit) : LM A :=
  fun p => match body p with
           | (r, p') => match cleanup p' with
                        | (inl e, p'') => (inl e, p'')
                        | (inr _, p'') => (r, p'')
                        end
           end.

(** One iteration of the [while True:] of [monitor_starlink]
    (lines 150-197). *)
Definition legacy_loop_body (w : env) (l : locals) : LM unit :=
  (dish_online_current_state <- on_shared (lift (check_dish_ping w DISHY_IP)) ;;
   current_dish_status <- on_shared (lift (get_dish_status_json w DISHY_IP)) ;;
   (if dish_online_current_state then
      lwhen (negb (dish_online_previous_state l))
        (on_shared (display_on_screen "Starlink Dish is now ONLINE.") ;;
         on_shared (send_email_alert w "Starlink Alert" "Starlink Dish is back online!") ;;
         on_shared (send_pushbullet_alert w "Starlink Online"
                      "Your Starlink dish is now online.") ;;
         raised <- on_shared (get alarm_state) ;;
         lwhen raised (on_shared (modify dismiss_alarm))) ;;
      lwhen (truthy current_dish_status) (lret tt)
    else
      lwhen (dish_online_previous_state l)
        (on_shared (display_on_screen "WARNING: Starlink Dish has gone OFFLINE!") ;;
         on_shared (send_email_alert w "Starlink CRITICAL Alert"
           "WARNING: Starlink Dish has gone OFFLINE! Check connection or if moved.") ;;
         on_shared (send_pushbullet_alert w "Starlink Offline!"
           "WARNING: Your Starlink dish has gone offline!") ;;
         raised <- on_shared (get alarm_state) ;;
         lwhen (negb raised) (start_alarm_thread "STARLINK OFFLINE! Check Dish!"))) ;;
   set_legacy_locals (Some (mkLocals dish_online_current_state current_dish_status)) ;;
   on_shared (sleep w CHECK_INTERVAL_SECONDS))%legacy.

(** Lines 199-209. *)
Definition legacy_except_clauses (w : env) (e : exn) : LM unit :=
  (if isinstance e KeyboardInterrupt then
     on_shared (display_on_screen "Starlink Monitor stopped by user.")
   else if isinstance e Exception then
     on_shared (display_on_screen
                  ("An unexpected error occurred in monitoring: " ++ exn_str e)) ;;
     on_shared (send_email_alert w "Starlink Monitor Error"
                  ("An unexpected error occurred: " ++ exn_str e)) ;;
     on_shared (send_pushbullet_alert w "Monitor Error"
                  ("An unexpected error occurred: " ++ exn_str e)) ;;
     raised <- on_shared (get alarm_state) ;;
     lwhen (negb raised) (start_alarm_thread ("MONITOR ERROR: " ++ exn_str e))
   else lraise e)%legacy.

(** Lines 210-214. *)
Definition legacy_finally_clause : LM unit :=
  (on_shared (display_on_screen "Exiting Starlink Monitor.") ;;
   shown <- on_shared (get alarm_window) ;;
   match shown with
   | Some w => on_shared (modify (tk_quit w))
   | None => lret tt
   end)%legacy.

(** Lines 142-146: the start-up messages of [monitor_starlink]. *)
Definition legacy_start (s : system) : system :=
  let s := log (Printed "Starlink Monitor started.") s in
  log (Printed ("Checking dish at " ++ DISHY_IP ++ " every "
                ++ str_of_Z CHECK_INTERVAL_SECONDS ++ " seconds.")) s.

(** One poll cycle of [monitor_starlink]; as in [poll], the [try]
    encloses the loop. *)
Definition legacy_poll (w : env) (p : program) : program :=
  match legacy_locals p with
  | None => p
  | Some l =>
      match legacy_loop_body w l p with
      | (inr _, p') => p'
      | (inl e, p') =>
          match ltry_finally (legacy_except_clauses w e) legacy_finally_clause p' with
          | (_, p'') => mkProgram (shared p'') None (alarm_threads p'')
          end
      end
  end.

Fixpoint remove_nth {A : Type} (n : nat) (l : list A) : list A :=
  match n, l with
  | _, [] => []
  | O, _ :: rest => rest
  | S n', x :: rest => x :: remove_nth n' rest
  end.

(** A started alarm thread gets to run [show_visual_alarm]. *)
Definition run_alarm_thread (n : nat) (p : program) : program :=
  match nth_error (alarm_threads p) n with
  | Some alert_message =>
      mkProgram (show_visual_alarm alert_message (shared p)) (legacy_locals p)
                (remove_nth n (alarm_threads p))
  | None => p
  end.

Inductive main_action : Type :=
| Queued (a : action)      (* a step of the queue-based design *)
| LegacyPoll (w : env)     (* monitor_starlink runs one loop iteration *)
| AlarmThread (n : nat)    (* the n-th started alarm thread runs *)
| LegacyDismiss            (* the button or close box of a window of show_visual_alarm *)
| LegacyFlash.             (* the flash timer of such a window *)

Definition main_step (p : program) (a : main_action) : program :=
  match a with
  | Queued a => mkProgram (step (shared p) a) (legacy_locals p) (alarm_threads p)
  | LegacyPoll w => legacy_poll w p
  | AlarmThread n => run_alarm_thread n p
  | LegacyDismiss => mkProgram (dismiss_alarm (shared p)) (legacy_locals p) (alarm_threads p)
  | LegacyFlash => mkProgram (flash_background (shared p)) (legacy_locals p) (alarm_threads p)
  end.

Definition main_run (p : program) (acts : list main_action) : program :=
  fold_left main_step acts p.

(** The main block (lines 216-220, 354-356): [monitor_starlink] is
    started first, then [monitor_starlink_threaded]. *)
Definition main_boot : program :=
  mkProgram (monitor_start (legacy_start initial)) (Some (mkLocals false JNull)) [].

(** A relation between the program before and after holds for a whole
    computation of the first monitor, whatever its outcome. *)
Definition lwithin (R : program -> program -> Prop) {A : Type} (m : LM A) : Prop :=
  forall p, R p (snd (m p)).

(** What every step of the script keeps: the alarm flag, the window
    handle and the windows agree, and the flash index is in range. *)
Definition alarm_sound (s : system) : Prop :=
  windows_coherent s /\ (flash_color_index s < 2)%nat.

Definition keeps_alarm_sound (p p' : program) : Prop :=
  alarm_sound (shared p) -> alarm_sound (shared p').

(** ** The events of a poll cycle of the first monitor *)

(** What [dismiss_alarm] adds to the history. *)
Definition dismissal_events (shown : option window) : list event :=
  match shown with Some w => [WindowDestroyed w] | None => [] end ++
  [Printed "Alarm dismissed."].

(** Everything a cycle of [monitor_starlink] in which no call fails adds
    to the history. *)
Definition legacy_cycle_events (w : env) (previous current raised : bool)
    (shown : option window) : list event :=
  match previous, current with
  | false, true => online_events w ++ (if raised then dismissal_events shown else [])
  | true, false => offline_events w
  | _, _ => []
  end ++ [Slept CHECK_INTERVAL_SECONDS].


(** ** What each monitor told the sinks, cycle by cycle *)

Fixpoint legacy_notified (p : program) (acts : list main_action) : list (list event) :=
  match acts with
  | [] => []
  | a :: rest =>
      match a with
      | LegacyPoll _ => [notifications (emitted (shared p) (shared (main_step p a)))]
      | _ => []
      end ++ legacy_notified (main_step p a) rest
  end.

Fixpoint queued_notified (p : program) (acts : list main_action) : list (list event) :=
  match acts with
  | [] => []
  | a :: rest =>
      match a with
      | Queued (Poll _) => [notifications (emitted (shared p) (shared (main_step p a)))]
      | _ => []
      end ++ queued_notified (main_step p a) rest
  end.

Definition reading_of (w : env) : list bool :=
  match probe w with
  | Some (reachable, _) => [reachable]
  | None => []
  end.

(** The ping results of the poll cycles of each monitor. *)
Definition legacy_readings (acts : list main_action) : list bool :=
  flat_map (fun a => match a with LegacyPoll w => reading_of w | _ => [] end) acts.

Definition queued_readings (acts : list main_action) : list bool :=
  flat_map (fun a => match a with Queued (Poll w) => reading_of w | _ => [] end) acts.

(** Every poll cycle of either monitor gets its probe outcome. *)
Definition no_failed_poll (acts : list main_action) : Prop :=
  Forall (fun a => match a with
                   | LegacyPoll w | Queued (Poll w) => probe w <> None
                   | _ => True
                   end) acts.

(** The sink calls that announce a transition. *)
Definition announcement (t : option transition) : list event := snd (report t).

(** * Proofs *)

(** ** Basic facts *)

(** The thread running alone is the run made of its poll cycles. *)
Lemma monitor_alone (ws : list env) :
  monitor_starlink_threaded ws initial = run boot (map Poll ws).
Proof.
  unfold monitor_starlink_threaded, run. fold boot.
  generalize boot. induction ws as [|w ws IH]; intros s; simpl; auto.
Qed.

Lemma enqueued_app (h1 h2 : list event) : enqueued (h1 ++ h2) = enqueued h1 ++ enqueued h2.
Proof. apply flat_map_app. Qed.

Lemma applied_app (h1 h2 : list event) : applied (h1 ++ h2) = applied h1 ++ applied h2.
Proof. apply flat_map_app. Qed.

Lemma shows_app (q1 q2 : list callback) : shows (q1 ++ q2) = shows q1 ++ shows q2.
Proof. apply flat_map_app. Qed.

Lemma notifications_app (h1 h2 : list event) :
  notifications (h1 ++ h2) = notifications h1 ++ notifications h2.
Proof. apply filter_app. Qed.

Lemma messages_app (h1 h2 : list event) : messages (h1 ++ h2) = messages h1 ++ messages h2.
Proof. apply flat_map_app. Qed.

Lemma surfaces_created_app (h1 h2 : list event) :
  surfaces_created (h1 ++ h2) = surfaces_created h1 ++ surfaces_created h2.
Proof. apply flat_map_app. Qed.

Lemma skipn_length_app {A : Type} (l new : list A) : skipn (List.length l) (l ++ new) = new.
Proof. induction l as [|x l IH]; simpl; auto. Qed.

Lemma run_app (s : system) (acts1 acts2 : list action) :
  run s (acts1 ++ acts2) = run (run s acts1) acts2.
Proof. apply fold_left_app. Qed.

Lemma run_snoc (s : system) (acts : list action) (a : action) :
  run s (acts ++ [a]) = step (run s acts) a.
Proof. rewrite run_app. reflexivity. Qed.

Lemma when_ret (b : bool) : when b (ret tt) = ret tt.
Proof. destruct b; reflexivity. Qed.

(** [except RequestException] catches every class of the requests
    hierarchy, and no builtin. *)
Lemma issubclass_RequestException (c : exn_class) :
  issubclass c RequestException =
  match c with
  | RequestException | HTTPError | ConnectionError | RequestTimeout
  | ConnectTimeout | ReadTimeout | InvalidJSONError | JSONDecodeError => true
  | _ => false
  end.
Proof. destruct c; reflexivity. Qed.


(** ** What monitor-thread code can do to the shared state

    A relation [R] between the state before and after is established
    for a whole computation from its primitive steps, whatever the
    outcome (normal or exceptional). *)

Section Footprint.

Variable R : system -> system -> Prop.

Hypothesis R_refl : forall s, R s s.

Hypothesis R_trans : forall s1 s2 s3, R s1 s2 -> R s2 s3 -> R s1 s3.

Lemma within_ret {A : Type} (a : A) : within R (ret a).
Proof. intros s. apply R_refl. Qed.

Lemma within_raise {A : Type} (e : exn) : within R (@raise A e).
Proof. intros s. apply R_refl. Qed.

Lemma within_lift {A : Type} (r : res A) : within R (lift r).
Proof. intros s. apply R_refl. Qed.

Lemma within_get {A : Type} (f : system -> A) : within R (get f).
Proof. intros s. apply R_refl. Qed.

Lemma within_bind {A B : Type} (m : M A) (k : A -> M B) :
  within R m -> (forall a, within R (k a)) -> within R (bind m k).
Proof.
  intros Hm Hk s. unfold bind. specialize (Hm s).
  destruct (m s) as [[e|a] s1]; simpl in *; auto.
  eapply R_trans; [exact Hm | apply Hk].
Qed.

Lemma within_when (b : bool) (m : M unit) : within R m -> within R (when b m).
Proof. destruct b; simpl; auto using within_ret. Qed.

Lemma within_try_finally {A : Type} (body : M A) (cleanup : M unit) :
  within R body -> within R cleanup -> within R (try_finally body cleanup).
Proof.
  intros Hb Hc s. unfold try_finally. specialize (Hb s).
  destruct (body s) as [r s1]. specialize (Hc s1).
  destruct (cleanup s1) as [[e|u] s2]; simpl in *; eauto.
Qed.

End Footprint.

Lemma grows_refl (s : system) : grows s s.
Proof.
  constructor; auto. exists []. rewrite !app_nil_r. auto.
Qed.

Lemma grows_trans (s1 s2 s3 : system) : grows s1 s2 -> grows s2 s3 -> grows s1 s3.
Proof.
  intros [W1 S1 F1 T1 N1 (n1 & H1 & Q1 & A1 & C1 & G1)]
         [W2 S2 F2 T2 N2 (n2 & H2 & Q2 & A2 & C2 & G2)].
  constructor; try congruence.
  exists (n1 ++ n2).
  rewrite H2, H1, Q2, Q1, enqueued_app, applied_app, surfaces_created_app,
    shows_app, A1, A2, C1, C2, !app_assoc.
  repeat split; auto.
  intros Hs. rewrite G1 by exact Hs. rewrite G2 by congruence. reflexivity.
Qed.

Lemma grows_log (e : event) (s : system) :
  enqueued [e] = [] -> applied [e] = [] -> surfaces_created [e] = [] ->
  grows s (log e s).
Proof.
  intros He Ha Hc. constructor; auto.
  exists [e]. simpl history. simpl gui_queue. rewrite He, app_nil_r. auto.
Qed.

Lemma grows_modify_log (e : event) :
  enqueued [e] = [] -> applied [e] = [] -> surfaces_created [e] = [] ->
  within grows (modify (log e)).
Proof. intros He Ha Hc s. unfold modify. simpl. apply grows_log; assumption. Qed.

Lemma grows_display (message : string) : within grows (display_on_screen message).
Proof. apply grows_modify_log; reflexivity. Qed.

Lemma grows_email (w : env) (subject body : string) :
  within grows (send_email_alert w subject body).
Proof.
  unfold send_email_alert. apply within_bind; [apply grows_trans| |intros _].
  - apply grows_modify_log; reflexivity.
  - destruct (smtp_delivery w subject body).
    + apply grows_modify_log; reflexivity.
    + apply within_ret, grows_refl.
Qed.

Lemma grows_push (w : env) (title body : string) :
  within grows (send_pushbullet_alert w title body).
Proof.
  unfold send_pushbullet_alert. apply within_bind; [apply grows_trans| |intros _].
  - apply grows_modify_log; reflexivity.
  - destruct (pushbullet_delivery w title body).
    + apply grows_modify_log; reflexivity.
    + apply within_ret, grows_refl.
Qed.

Lemma grows_sleep (w : env) (seconds : Z) : within grows (sleep w seconds).
Proof.
  unfold sleep. apply within_bind; [apply grows_trans| |intros _].
  - apply within_lift, grows_refl.
  - apply grows_modify_log; reflexivity.
Qed.

Lemma grows_set_monitor (v : option locals) (s : system) : grows s (set_monitor v s).
Proof. constructor; auto. exists []. simpl. rewrite !app_nil_r. auto. Qed.

(** Line 321-322: [if alarm_state: gui_queue.put(dismiss_alarm_thread_safe)]. *)
Lemma grows_guarded_dismiss :
  within grows (bind (get alarm_state) (fun raised => when raised (gui_queue_put CbDismiss))).
Proof.
  intros s. unfold bind, get, when, gui_queue_put, modify.
  destruct (alarm_state s) eqn:Hs; simpl; [|apply grows_refl].
  constructor; auto. exists [Enqueued CbDismiss]. simpl. auto.
Qed.

(** Lines 332-333 and 347-348: [if not alarm_state: gui_queue.put(lambda: ...)]. *)
Lemma grows_guarded_show (alert_message : string) :
  within grows (bind (get alarm_state) (fun raised =>
                when (negb raised) (gui_queue_put (CbShow alert_message)))).
Proof.
  intros s. unfold bind, get, when, gui_queue_put, modify.
  destruct (alarm_state s) eqn:Hs; simpl; [apply grows_refl|].
  constructor; auto. exists [Enqueued (CbShow alert_message)]. simpl.
  repeat split; auto. congruence.
Qed.

Ltac footprint :=
  repeat first
    [ apply grows_guarded_dismiss
    | apply grows_guarded_show
    | apply grows_display
    | apply grows_email
    | apply grows_push
    | apply grows_sleep
    | apply within_ret; [apply grows_refl]
    | apply within_raise; [apply grows_refl]
    | apply within_lift; [apply grows_refl]
    | apply within_when; [apply grows_refl|]
    | apply within_bind; [apply grows_trans| |intro]
    | apply within_try_finally; [apply grows_trans| |]
    | match goal with |- within _ (if ?b then _ else _) => destruct b end
    | match goal with |- within _ (modify (set_monitor _)) =>
        intro; apply grows_set_monitor end ].

Lemma grows_loop_body (w : env) (l : locals) : within grows (loop_body w l).
Proof. unfold loop_body. footprint. Qed.

Lemma grows_except_clauses (w : env) (e : exn) : within grows (except_clauses w e).
Proof. unfold except_clauses. footprint. Qed.

Lemma grows_poll (w : env) (s : system) : grows s (poll w s).
Proof.
  unfold poll. destruct (monitor s) as [l|]; [|apply grows_refl].
  pose proof (grows_loop_body w l s) as Hb.
  destruct (loop_body w l s) as [[e|u] s1]; simpl in Hb; auto.
  eapply grows_trans; [exact Hb|].
  eapply grows_trans; [|apply grows_set_monitor].
  apply (within_try_finally grows grows_trans).
  - apply grows_except_clauses.
  - unfold finally_clause. apply grows_display.
Qed.

(** ** What the Tk side does *)

Lemma remove_window_single (w : window) : remove_window w [w] = [].
Proof. simpl. rewrite Nat.eqb_refl. reflexivity. Qed.

Lemma gui_only_refl (s : system) : gui_only s s.
Proof. constructor; auto. exists []. rewrite app_nil_r. auto. Qed.

Lemma gui_only_trans (s1 s2 s3 : system) : gui_only s1 s2 -> gui_only s2 s3 -> gui_only s1 s3.
Proof.
  intros [M1 (n1 & H1 & E1 & N1)] [M2 (n2 & H2 & E2 & N2)].
  constructor; [congruence|].
  exists (n1 ++ n2).
  rewrite H2, H1, enqueued_app, notifications_app, E1, E2, N1, N2, app_assoc. auto.
Qed.

Lemma gui_only_dismiss (s : system) : gui_only s (dismiss_alarm_thread_safe s).
Proof.
  unfold dismiss_alarm_thread_safe. constructor.
  - destruct (alarm_window s); reflexivity.
  - destruct (alarm_window s) as [w|]; simpl.
    + exists [WindowDestroyed w; Printed "Alarm dismissed."].
      rewrite <- app_assoc. auto.
    + exists [Printed "Alarm dismissed."]. auto.
Qed.

Lemma gui_only_show (alert_message : string) (s : system) :
  gui_only s (show_visual_alarm_thread_safe alert_message s).
Proof.
  unfold show_visual_alarm_thread_safe.
  destruct (alarm_state s); [apply gui_only_refl|].
  constructor; simpl; auto.
  exists [WindowCreated (tk_fresh s) alert_message]. auto.
Qed.

Lemma gui_only_call (cb : callback) (s : system) : gui_only s (call cb s).
Proof. destruct cb; [apply gui_only_dismiss | apply gui_only_show]. Qed.

Lemma gui_only_flash (s : system) : gui_only s (flash_background_thread_safe s).
Proof.
  unfold flash_background_thread_safe.
  destruct (alarm_window s), (alarm_state s); try apply gui_only_refl.
  constructor; simpl; auto. exists []. rewrite app_nil_r. auto.
Qed.

Lemma gui_only_drain (pending : list callback) (s : system) : gui_only s (drain pending s).
Proof.
  revert s. induction pending as [|cb rest IH]; intros s; simpl.
  - apply gui_only_refl.
  - eapply gui_only_trans; [|apply IH].
    eapply gui_only_trans; [|apply gui_only_call].
    constructor; simpl; auto. exists [Applied cb]. auto.
Qed.

Lemma gui_queue_call (cb : callback) (s : system) : gui_queue (call cb s) = gui_queue s.
Proof.
  destruct cb; simpl.
  - unfold dismiss_alarm_thread_safe. destruct (alarm_window s); reflexivity.
  - unfold show_visual_alarm_thread_safe. destruct (alarm_state s); reflexivity.
Qed.

Lemma applied_call (cb : callback) (s : system) :
  applied (history (call cb s)) = applied (history s).
Proof.
  destruct cb; simpl.
  - unfold dismiss_alarm_thread_safe. destruct (alarm_window s); simpl;
      rewrite ?applied_app; simpl; rewrite ?app_nil_r; reflexivity.
  - unfold show_visual_alarm_thread_safe. destruct (alarm_state s); simpl;
      rewrite ?applied_app; simpl; rewrite ?app_nil_r; reflexivity.
Qed.

(** [check_gui_queue] calls the pending callbacks head first, each once,
    and leaves the queue empty. *)
Lemma drain_applies (pending : list callback) (s : system) :
  applied (history (drain pending s)) = applied (history s) ++ pending /\
  gui_queue (drain pending s) = match pending with [] => gui_queue s | _ => [] end.
Proof.
  revert s. induction pending as [|cb rest IH]; intros s; simpl.
  - rewrite app_nil_r. auto.
  - destruct (IH (call cb (log (Applied cb) (set_gui_queue rest s)))) as [Ha Hq].
    rewrite Ha, Hq, applied_call, gui_queue_call. simpl history. simpl gui_queue.
    rewrite applied_app. simpl. rewrite <- app_assoc. simpl.
    split; [reflexivity | destruct rest; reflexivity].
Qed.

Lemma check_gui_queue_empties (s : system) : gui_queue (check_gui_queue s) = [].
Proof.
  unfold check_gui_queue. destruct (drain_applies (gui_queue s) s) as [_ Hq].
  rewrite Hq. destruct (gui_queue s) eqn:E; auto.
Qed.

Lemma gui_only_step (s : system) (a : action) :
  match a with Poll _ => True | _ => gui_only s (step s a) end.
Proof.
  destruct a; simpl; auto using gui_only_dismiss, gui_only_flash.
  apply gui_only_drain.
Qed.

(** ** Coherence of the alarm globals *)

Lemma coherent_dismiss (s : system) : coherent s -> coherent (dismiss_alarm_thread_safe s).
Proof.
  intros [Ht Hs Hp]. unfold dismiss_alarm_thread_safe.
  destruct (alarm_window s) as [w|] eqn:Ew; simpl in *.
  - constructor; simpl; try discriminate; auto.
    rewrite Ht. apply remove_window_single.
  - constructor; simpl; try discriminate; auto; rewrite ?Ew; auto.
Qed.

Lemma windows_coherent_call (cb : callback) (s : system) :
  windows_coherent s -> windows_coherent (call cb s).
Proof.
  intros [Ht Hs]. destruct cb; simpl.
  - unfold dismiss_alarm_thread_safe.
    destruct (alarm_window s) as [w|] eqn:Ew; unfold windows_coherent; simpl in *.
    + rewrite Ht, remove_window_single. auto.
    + rewrite Ew. auto.
  - unfold show_visual_alarm_thread_safe.
    destruct (alarm_state s) eqn:Es; unfold windows_coherent; simpl.
    + rewrite Es. auto.
    + destruct (alarm_window s); [discriminate|]. rewrite Ht. auto.
Qed.

Lemma windows_coherent_drain (pending : list callback) (s : system) :
  windows_coherent s -> windows_coherent (drain pending s).
Proof.
  revert s. induction pending as [|cb rest IH]; intros s H; simpl; auto.
  apply IH, windows_coherent_call. exact H.
Qed.

Lemma coherent_step (s : system) (a : action) : coherent s -> coherent (step s a).
Proof.
  intros H. destruct a as [w| | |]; simpl.
  - destruct H as [Ht Hs Hp].
    destruct (grows_poll w s) as [W S _ T _ (new & _ & Q & _ & _ & G)].
    constructor; rewrite ?W, ?S, ?T; auto.
    intros Hr. rewrite Q, shows_app, Hp, G by assumption. reflexivity.
  - destruct H as [Ht Hs _].
    destruct (windows_coherent_drain (gui_queue s) s (conj Ht Hs)) as [Ht' Hs'].
    constructor; auto.
    intros _. fold (check_gui_queue s). rewrite check_gui_queue_empties. reflexivity.
  - apply coherent_dismiss, H.
  - destruct H as [Ht Hs Hp]. unfold flash_background_thread_safe.
    destruct (alarm_window s) eqn:Ew, (alarm_state s) eqn:Es;
      constructor; simpl; rewrite ?Ew, ?Es; auto.
Qed.

Lemma coherent_boot : coherent boot.
Proof. constructor; simpl; auto. Qed.

Lemma coherent_run (s : system) (acts : list action) : coherent s -> coherent (run s acts).
Proof.
  revert s. induction acts as [|a acts IH]; intros s H; simpl; auto.
  apply IH, coherent_step, H.
Qed.

(** ** A poll cycle in which no call fails *)

Lemma probe_Some (w : env) (reachable : bool) (payload : json) :
  probe w = Some (reachable, payload) ->
  check_dish_ping w DISHY_IP = inr reachable /\
  get_dish_status_json w DISHY_IP = inr payload /\
  time_sleep w CHECK_INTERVAL_SECONDS = inr tt.
Proof.
  unfold probe.
  destruct (check_dish_ping w DISHY_IP) as [e|b]; [discriminate|].
  destruct (get_dish_status_json w DISHY_IP) as [e|v]; [discriminate|].
  destruct (time_sleep w CHECK_INTERVAL_SECONDS) as [e|[]]; [discriminate|].
  intros H. injection H as -> ->. auto.
Qed.

(** Setters and projections computed on an explicit record. *)
Ltac record_simpl :=
  cbv [modify log set_monitor set_gui_queue set_alarm_window set_alarm_state
       set_flash_color_index set_toplevels set_tk_fresh
       alarm_window alarm_state flash_color_index toplevels tk_fresh gui_queue
       monitor history];
  cbn.

Lemma poll_normal (w : env) (s : system) (l : locals) (reachable : bool) (payload : json) :
  monitor s = Some l ->
  probe w = Some (reachable, payload) ->
  let evs := cycle_events w (dish_online_previous_state l) reachable (alarm_state s) in
  poll w s =
  mkSystem (alarm_window s) (alarm_state s) (flash_color_index s) (toplevels s) (tk_fresh s)
           (gui_queue s ++ enqueued evs) (Some (mkLocals reachable payload))
           (history s ++ evs).
Proof.
  intros Hm Hp. apply probe_Some in Hp. destruct Hp as (Hping & Hfetch & Hsleep).
  destruct s as [aw raised fl tl fr q mo hi]. cbn in Hm. subst mo.
  destruct l as [previous status].
  unfold poll, loop_body, sleep, bind, lift.
  cbn [monitor dish_online_previous_state alarm_state alarm_window flash_color_index
       toplevels tk_fresh gui_queue history].
  rewrite Hping, Hfetch, when_ret.
  unfold cycle_events, online_events, offline_events, notify_events, sink_log.
  destruct reachable, previous;
    cbv [when negb ret send_email_alert send_pushbullet_alert bind modify get
         gui_queue_put display_on_screen];
    repeat match goal with
           | |- context [smtp_delivery w ?a ?b] => destruct (smtp_delivery w a b)
           | |- context [pushbullet_delivery w ?a ?b] => destruct (pushbullet_delivery w a b)
           end;
    destruct raised;
    cbn; rewrite ?Hsleep; record_simpl;
    rewrite ?app_nil_r, <- ?app_assoc; reflexivity.
Qed.

Lemma coherent_reachable (acts : list action) : coherent (run boot acts).
Proof. apply coherent_run, coherent_boot. Qed.



(** * The claims *)

(** ** C8: the status fetch *)




(** ** C6: lowering when idle, raising when raised *)

(** C6: in every reachable state, [dismiss_alarm_thread_safe] called
    with the alarm flag down leaves the flag, [alarm_window] and the
    windows as they were, and [show_visual_alarm_thread_safe] called
    with the flag up returns the state unchanged. *)
Theorem lower_idle_and_raise_raised_are_noops (acts : list action) (alert_message : string) :
  let s := run boot acts in
  (alarm_state s = false ->
   alarm_state (dismiss_alarm_thread_safe s) = alarm_state s /\
   alarm_window (dismiss_alarm_thread_safe s) = alarm_window s /\
   toplevels (dismiss_alarm_thread_safe s) = toplevels s) /\
  (alarm_state s = true ->
   show_visual_alarm_thread_safe alert_message s = s /\
   call (CbShow alert_message) s = s).
Proof.
  intros s. destruct (coherent_reachable acts) as [Ht Hs _]. fold s in Ht, Hs.
  split.
  - intros Hidle. unfold dismiss_alarm_thread_safe.
    destruct (alarm_window s) as [w|] eqn:Ew.
    + rewrite Hidle in Hs. discriminate.
    + simpl. rewrite Ew. auto.
  - intros Hraised. simpl. unfold show_visual_alarm_thread_safe.
    rewrite Hraised. auto.
Qed.

Lemma lower_idle_and_raise_raised_are_noops_witness :
  (alarm_window (dismiss_alarm_thread_safe boot) = None) /\
  (show_visual_alarm_thread_safe "again" (run boot [Poll online; Poll offline; Tick])
   = run boot [Poll online; Poll offline; Tick]).
Proof.
  split.
  - exact (proj1 (proj2 (proj1 (lower_idle_and_raise_raised_are_noops [] "x") eq_refl))).
  - exact (proj1 (proj2 (lower_idle_and_raise_raised_are_noops
                           [Poll online; Poll offline; Tick] "again") eq_refl)).
Defined.

(** ** C5: the command channel *)


(** ** C2: at most one alarm *)

(** C2: in every reachable state there is at most one alarm window,
    it is the one in [alarm_window], and it exists exactly when
    [alarm_state] is set; and while [alarm_state] is set, a poll cycle
    enqueues no raise command (whatever happens in it) and a raise
    command that is applied changes nothing. *)
Theorem at_most_one_alarm_surface (acts : list action) :
  let s := run boot acts in
  (List.length (toplevels s) <= 1)%nat /\
  toplevels s = window_list (alarm_window s) /\
  alarm_state s = is_some (alarm_window s) /\
  (alarm_state s = true ->
   forall (w : env) (alert_message : string),
     shows (enqueued (emitted s (poll w s))) = [] /\
     toplevels (poll w s) = toplevels s /\
     show_visual_alarm_thread_safe alert_message s = s).
Proof.
  intros s. destruct (coherent_reachable acts) as [Ht Hs Hp]. fold s in Ht, Hs, Hp.
  repeat split; auto.
  - rewrite Ht. destruct (alarm_window s); simpl; lia.
  - destruct (grows_poll w s) as [_ _ _ _ _ (new & Hh & _ & _ & _ & G)].
    unfold emitted. rewrite Hh, skipn_length_app. auto.
  - apply (grows_toplevels _ _ (grows_poll w s)).
  - unfold show_visual_alarm_thread_safe. rewrite H. reflexivity.
Qed.

Lemma at_most_one_alarm_surface_witness :
  shows (enqueued (emitted (run boot [Poll online; Poll offline; Tick])
                           (poll offline (run boot [Poll online; Poll offline; Tick])))) = [] /\
  toplevels (run boot [Poll online; Poll offline; Tick]) = [0%nat].
Proof.
  split.
  - exact (proj1 (proj2 (proj2 (proj2 (at_most_one_alarm_surface
             [Poll online; Poll offline; Tick]))) eq_refl offline "x")).
  - reflexivity.
Defined.

(** ** Runs without failures *)

Lemma emitted_app (s s' : system) (new : list event) :
  history s' = history s ++ new -> emitted s s' = new.
Proof. intros H. unfold emitted. rewrite H. apply skipn_length_app. Qed.

Lemma emitted_poll_normal (w : env) (s : system) (l : locals) (reachable : bool) (payload : json) :
  monitor s = Some l ->
  probe w = Some (reachable, payload) ->
  emitted s (poll w s) =
  cycle_events w (dish_online_previous_state l) reachable (alarm_state s).
Proof.
  intros Hm Hp. apply emitted_app. rewrite (poll_normal w s l reachable payload Hm Hp).
  reflexivity.
Qed.

Lemma monitor_gui_step (s : system) (a : action) :
  match a with Poll _ => True | _ => monitor (step s a) = monitor s end.
Proof.
  pose proof (gui_only_step s a) as H.
  destruct a; auto; apply (gui_monitor _ _ H).
Qed.

(** ** C1: transitions are reported exactly on change *)

Lemma observed_cycle_events (w : env) (previous current raised : bool) :
  observed (cycle_events w previous current raised) = report (detect previous current).
Proof.
  unfold cycle_events, online_events, offline_events, notify_events, sink_log, observed.
  destruct previous, current; try reflexivity;
    repeat match goal with
           | |- context [smtp_delivery w ?a ?b] => destruct (smtp_delivery w a b)
           | |- context [pushbullet_delivery w ?a ?b] => destruct (pushbullet_delivery w a b)
           end;
    destruct raised; reflexivity.
Qed.

Lemma reports_detect (acts : list action) (s : system) (l : locals) :
  monitor s = Some l ->
  no_failure acts ->
  reports s acts = map report (detect_all (dish_online_previous_state l) (readings acts)).
Proof.
  revert s l. induction acts as [|a acts IH]; intros s l Hm Hok; [reflexivity|].
  inversion Hok as [|a' acts' Ha Hrest]; subst.
  destruct a as [w| | |].
  - destruct (probe w) as [[reachable payload]|] eqn:Hp; [|congruence].
    simpl. rewrite Hp. simpl.
    rewrite (emitted_poll_normal w s l reachable payload Hm Hp), observed_cycle_events.
    f_equal.
    apply (IH (poll w s) (mkLocals reachable payload)); auto.
    rewrite (poll_normal w s l reachable payload Hm Hp). reflexivity.
  - simpl. apply IH; auto. rewrite <- Hm. apply (monitor_gui_step s Tick).
  - simpl. apply IH; auto. rewrite <- Hm. apply (monitor_gui_step s Click).
  - simpl. apply IH; auto. rewrite <- Hm. apply (monitor_gui_step s Flash).
Qed.

(** C1: over any run in which every probe has an outcome (and whatever
    the Tk side does in between), the poll cycles report exactly the
    transitions the detector of section 4.1 emits on the sequence of ping
    results, started with [previous = Offline]: a cycle prints the
    online/offline message and calls both sinks if and only if its
    reading differs from the previous one; a first Offline reading
    reports nothing and a first Online reading reports OfflineToOnline. *)
Theorem transition_reported_iff_connectivity_changed (acts : list action) :
  no_failure acts ->
  reports boot acts = map report (detect_all false (readings acts)) /\
  (forall previous next : bool, detect previous next <> None <-> next <> previous) /\
  (forall t : option transition, report t = ([], []) <-> t = None) /\
  detect false false = None /\
  detect false true = Some OfflineToOnline.
Proof.
  intros Hok. repeat split.
  - apply (reports_detect acts boot (mkLocals false JNull)); auto.
  - destruct previous, next; unfold detect; simpl; intuition congruence.
  - destruct previous, next; unfold detect; simpl; intuition congruence.
  - destruct t as [[|]|]; simpl; congruence.
  - intros ->. reflexivity.
Qed.

Lemma transition_reported_iff_connectivity_changed_witness :
  reports boot [Poll offline; Tick; Poll offline; Poll online; Poll offline; Tick] =
  [report None; report None; report (Some OfflineToOnline); report (Some OnlineToOffline)].
Proof.
  refine (proj1 (transition_reported_iff_connectivity_changed
                   [Poll offline; Tick; Poll offline; Poll online; Poll offline; Tick] _)).
  repeat constructor; discriminate.
Defined.

(** ** C10: a dish that never answers *)





(** ** A poll cycle in which a call fails *)

Lemma Exception_is_not_KeyboardInterrupt (e : exn) :
  isinstance e Exception = true -> isinstance e KeyboardInterrupt = false.
Proof. unfold isinstance. destruct (exn_type e); vm_compute; congruence. Qed.

Lemma handler_Exception (w : env) (e : exn) (s : system) :
  isinstance e Exception = true ->
  let evs := error_events w e (alarm_state s) in
  snd (try_finally (except_clauses w e) finally_clause s) =
  mkSystem (alarm_window s) (alarm_state s) (flash_color_index s) (toplevels s) (tk_fresh s)
           (gui_queue s ++ enqueued evs) (monitor s) (history s ++ evs).
Proof.
  intros He. pose proof (Exception_is_not_KeyboardInterrupt e He) as Hk.
  destruct s as [aw raised fl tl fr q mo hi].
  unfold try_finally, except_clauses, finally_clause. rewrite Hk, He.
  unfold error_events, notify_events, sink_log.
  generalize ("An unexpected error occurred in monitoring: " ++ exn_str e)%string.
  generalize ("An unexpected error occurred: " ++ exn_str e)%string.
  generalize ("MONITOR ERROR: " ++ exn_str e)%string.
  intros m3 m2 m1.
  cbv [when negb ret send_email_alert send_pushbullet_alert bind modify get
       gui_queue_put display_on_screen].
  destruct (smtp_delivery w "Starlink Monitor Error" m2),
           (pushbullet_delivery w "Monitor Error" m2), raised;
    record_simpl; rewrite ?app_nil_r, <- ?app_assoc; reflexivity.
Qed.

Lemma poll_failure (w : env) (s s1 : system) (l : locals) (e : exn) :
  monitor s = Some l ->
  loop_body w l s = (inl e, s1) ->
  isinstance e Exception = true ->
  let evs := error_events w e (alarm_state s1) in
  poll w s =
  mkSystem (alarm_window s1) (alarm_state s1) (flash_color_index s1) (toplevels s1)
           (tk_fresh s1) (gui_queue s1 ++ enqueued evs) None (history s1 ++ evs).
Proof.
  intros Hm Hb He. unfold poll. rewrite Hm, Hb, (handler_Exception w e s1 He).
  reflexivity.
Qed.

Lemma poll_exited (w : env) (s : system) : monitor s = None -> poll w s = s.
Proof. intros H. unfold poll. rewrite H. reflexivity. Qed.

Lemma monitor_exited_run (s : system) (acts : list action) :
  monitor s = None -> monitor (run s acts) = None.
Proof.
  revert s. induction acts as [|a acts IH]; intros s H; simpl; auto.
  apply IH. destruct a as [w| | |].
  - simpl. rewrite poll_exited; auto.
  - rewrite <- H. apply (monitor_gui_step s Tick).
  - rewrite <- H. apply (monitor_gui_step s Click).
  - rewrite <- H. apply (monitor_gui_step s Flash).
Qed.

(** ** C3: an unexpected failure inside a poll cycle *)

(** C3, as stated, fails: after one failing cycle the thread is gone,
    and a later poll changes nothing; the dish coming online is never
    reported. *)
Lemma monitoring_stops_after_failure :
  monitor (run boot [Poll crashing]) = None /\
  run boot [Poll crashing; Poll online] = run boot [Poll crashing] /\
  messages (history (run boot [Poll crashing; Poll online])) =
  ["Starlink Monitor started in background thread.";
   "Checking dish at 192.168.100.1 every 10 seconds.";
   "An unexpected error occurred in monitoring: boom";
   "Background monitoring thread exiting."].
Proof. repeat split; vm_compute; reflexivity. Qed.

(** C3 (amended): when a call inside a poll cycle raises an [Exception],
    the failure is reported once (one console message, one call to each
    sink, and one error-alert command unless an alarm is already up),
    the thread prints its exit message and stops: no later poll
    happens. *)
Theorem failure_reported_once_then_monitor_exits
    (w : env) (s s1 : system) (l : locals) (e : exn) :
  monitor s = Some l ->
  loop_body w l s = (inl e, s1) ->
  isinstance e Exception = true ->
  let s2 := poll w s in
  messages (emitted s1 s2) =
    [("An unexpected error occurred in monitoring: " ++ exn_str e)%string;
     "Background monitoring thread exiting."] /\
  notifications (emitted s1 s2) =
    [EmailSent "Starlink Monitor Error" ("An unexpected error occurred: " ++ exn_str e);
     PushSent "Monitor Error" ("An unexpected error occurred: " ++ exn_str e)] /\
  enqueued (emitted s1 s2) =
    (if alarm_state s then [] else [CbShow ("MONITOR ERROR: " ++ exn_str e)]) /\
  monitor s2 = None /\
  (forall (acts : list action) (w' : env), poll w' (run s2 acts) = run s2 acts).
Proof.
  intros Hm Hb He s2.
  assert (Hs2 : s2 = poll w s) by reflexivity.
  rewrite (poll_failure w s s1 l e Hm Hb He) in Hs2.
  assert (Hst : alarm_state s1 = alarm_state s).
  { pose proof (grows_loop_body w l s) as G. rewrite Hb in G. apply (grows_state _ _ G). }
  assert (Hem : emitted s1 s2 = error_events w e (alarm_state s)).
  { apply emitted_app. rewrite Hs2, Hst. reflexivity. }
  assert (Hmon : monitor s2 = None) by (rewrite Hs2; reflexivity).
  rewrite Hem. unfold error_events, notify_events, sink_log.
  repeat split.
  - destruct (smtp_delivery w _ _), (pushbullet_delivery w _ _), (alarm_state s); reflexivity.
  - destruct (smtp_delivery w _ _), (pushbullet_delivery w _ _), (alarm_state s); reflexivity.
  - destruct (smtp_delivery w _ _), (pushbullet_delivery w _ _), (alarm_state s); reflexivity.
  - exact Hmon.
  - intros acts w'. apply poll_exited, monitor_exited_run, Hmon.
Qed.

Lemma failure_reported_once_then_monitor_exits_witness :
  enqueued (emitted boot (poll crashing boot)) = [CbShow "MONITOR ERROR: boom"] /\
  monitor (poll crashing boot) = None.
Proof.
  assert (Hb : loop_body crashing (mkLocals false JNull) boot
               = (inl (mkExn ValueError "boom"), boot)) by (vm_compute; reflexivity).
  pose proof (failure_reported_once_then_monitor_exits
                crashing boot boot (mkLocals false JNull) (mkExn ValueError "boom")
                eq_refl Hb eq_refl) as (_ & _ & Hq & Hm & _).
  split; assumption.
Defined.

(** ** C4: a failing sink *)

(** C4: in a poll cycle that reports a transition, whatever the two
    deliveries do (succeed or fail), both sinks are invoked, email first
    and push second, each failure is logged, the cycle runs on to its
    sleep, and the thread is ready for the next cycle. *)
Theorem sink_failure_is_contained
    (w : env) (s : system) (l : locals) (reachable : bool) (payload : json) :
  monitor s = Some l ->
  probe w = Some (reachable, payload) ->
  reachable <> dish_online_previous_state l ->
  let s' := poll w s in
  (exists subject body title text,
     notifications (emitted s s') = [EmailSent subject body; PushSent title text] /\
     failures (emitted s s') =
       failure_of "email" (smtp_delivery w subject body) ++
       failure_of "push" (pushbullet_delivery w title text)) /\
  In (Slept CHECK_INTERVAL_SECONDS) (emitted s s') /\
  monitor s' = Some (mkLocals reachable payload).
Proof.
  intros Hm Hp Hchange s'.
  assert (Hs' : s' = poll w s) by reflexivity.
  rewrite (poll_normal w s l reachable payload Hm Hp) in Hs'.
  assert (Hem : emitted s s' =
                cycle_events w (dish_online_previous_state l) reachable (alarm_state s)).
  { apply emitted_app. rewrite Hs'. reflexivity. }
  rewrite Hem. unfold cycle_events, online_events, offline_events, notify_events, sink_log.
  split; [|split].
  - destruct (dish_online_previous_state l), reachable; try congruence.
    + exists "Starlink CRITICAL Alert",
             "WARNING: Starlink Dish has gone OFFLINE! Check connection or if moved.",
             "Starlink Offline!", "WARNING: Your Starlink dish has gone offline!".
      destruct (smtp_delivery w _ _), (pushbullet_delivery w _ _), (alarm_state s);
        split; reflexivity.
    + exists "Starlink Alert", "Starlink Dish is back online!",
             "Starlink Online", "Your Starlink dish is now online.".
      destruct (smtp_delivery w _ _), (pushbullet_delivery w _ _), (alarm_state s);
        split; reflexivity.
  - apply in_or_app. right. left. reflexivity.
  - rewrite Hs'. reflexivity.
Qed.

Lemma sink_failure_is_contained_witness :
  In (Slept CHECK_INTERVAL_SECONDS) (emitted boot (poll mail_down boot)) /\
  monitor (poll mail_down boot) = Some (mkLocals true (JObj [("stowed", JBool false)])).
Proof.
  assert (Hp : probe mail_down = Some (true, JObj [("stowed", JBool false)]))
    by (vm_compute; reflexivity).
  assert (Hc : true <> dish_online_previous_state (mkLocals false JNull)) by discriminate.
  pose proof (sink_failure_is_contained mail_down boot (mkLocals false JNull) true _
                eq_refl Hp Hc) as (_ & Hsl & Hm).
  split; assumption.
Defined.

(** ** C7: dismissing while the dish stays offline *)

Lemma enqueued_online_events (w : env) : enqueued (online_events w) = [].
Proof.
  unfold online_events, notify_events, sink_log.
  destruct (smtp_delivery w _ _), (pushbullet_delivery w _ _); reflexivity.
Qed.

Lemma enqueued_offline_events (w : env) : enqueued (offline_events w) = [].
Proof.
  unfold offline_events, notify_events, sink_log.
  destruct (smtp_delivery w _ _), (pushbullet_delivery w _ _); reflexivity.
Qed.

Lemma surfaces_online_events (w : env) : surfaces_created (online_events w) = [].
Proof.
  unfold online_events, notify_events, sink_log.
  destruct (smtp_delivery w _ _), (pushbullet_delivery w _ _); reflexivity.
Qed.

Lemma surfaces_offline_events (w : env) : surfaces_created (offline_events w) = [].
Proof.
  unfold offline_events, notify_events, sink_log.
  destruct (smtp_delivery w _ _), (pushbullet_delivery w _ _); reflexivity.
Qed.






(** ** C9: the status payload is stored and never read *)

Lemma alike_fields (s1 s2 : system) :
  alike s1 s2 ->
  alarm_window s1 = alarm_window s2 /\ alarm_state s1 = alarm_state s2 /\
  flash_color_index s1 = flash_color_index s2 /\ toplevels s1 = toplevels s2 /\
  tk_fresh s1 = tk_fresh s2 /\ gui_queue s1 = gui_queue s2 /\
  history s1 = history s2 /\
  option_map dish_online_previous_state (monitor s1) =
  option_map dish_online_previous_state (monitor s2).
Proof.
  destruct s1 as [aw1 st1 fl1 tl1 fr1 q1 mo1 hi1], s2 as [aw2 st2 fl2 tl2 fr2 q2 mo2 hi2].
  unfold alike, forget_status, set_monitor. simpl. intros H.
  injection H as -> -> -> -> -> -> Hm ->.
  repeat split; auto.
  destruct mo1 as [[]|], mo2 as [[]|]; simpl in *; congruence.
Qed.

Lemma alike_of_fields (s1 s2 : system) :
  alarm_window s1 = alarm_window s2 -> alarm_state s1 = alarm_state s2 ->
  flash_color_index s1 = flash_color_index s2 -> toplevels s1 = toplevels s2 ->
  tk_fresh s1 = tk_fresh s2 -> gui_queue s1 = gui_queue s2 ->
  history s1 = history s2 ->
  option_map dish_online_previous_state (monitor s1) =
  option_map dish_online_previous_state (monitor s2) ->
  alike s1 s2.
Proof.
  destruct s1 as [aw1 st1 fl1 tl1 fr1 q1 mo1 hi1], s2 as [aw2 st2 fl2 tl2 fr2 q2 mo2 hi2].
  unfold alike, forget_status, set_monitor. simpl.
  intros -> -> -> -> -> -> -> Hm.
  destruct mo1 as [[]|], mo2 as [[]|]; simpl in *; congruence.
Qed.

Lemma blind_log (e : event) : blind (log e).
Proof.
  intros s1 s2 H. apply alike_fields in H.
  destruct H as (? & ? & ? & ? & ? & ? & Hh & ?).
  apply alike_of_fields; simpl; auto. rewrite Hh. reflexivity.
Qed.

Lemma blind_put (cb : callback) :
  blind (fun s => log (Enqueued cb) (set_gui_queue (gui_queue s ++ [cb]) s)).
Proof.
  intros s1 s2 H. apply alike_fields in H.
  destruct H as (? & ? & ? & ? & ? & Hq & Hh & ?).
  apply alike_of_fields; simpl; auto; [rewrite Hq | rewrite Hh]; reflexivity.
Qed.

Lemma blind_set_monitor (v : option locals) : blind (set_monitor v).
Proof.
  intros s1 s2 H. apply alike_fields in H.
  destruct H as (? & ? & ? & ? & ? & ? & ? & ?).
  apply alike_of_fields; simpl; auto.
Qed.

Lemma blind_dismiss : blind dismiss_alarm_thread_safe.
Proof.
  intros s1 s2 H. apply alike_fields in H.
  destruct H as (Hw & ? & ? & Ht & ? & ? & Hh & ?).
  unfold dismiss_alarm_thread_safe. rewrite Hw.
  destruct (alarm_window s2) eqn:E; apply alike_of_fields; simpl; auto;
    rewrite ?Ht, ?Hh; congruence.
Qed.

Lemma blind_show (alert_message : string) : blind (show_visual_alarm_thread_safe alert_message).
Proof.
  intros s1 s2 H. pose proof (alike_fields _ _ H) as (? & Hs & ? & Ht & Hf & ? & Hh & ?).
  unfold show_visual_alarm_thread_safe. rewrite Hs.
  destruct (alarm_state s2) eqn:E; [exact H|].
  apply alike_of_fields; simpl; auto; congruence.
Qed.

Lemma blind_flash : blind flash_background_thread_safe.
Proof.
  intros s1 s2 H. pose proof (alike_fields _ _ H) as (Hw & Hs & Hf & ? & ? & ? & ? & ?).
  unfold flash_background_thread_safe. rewrite Hw, Hs.
  destruct (alarm_window s2) eqn:E, (alarm_state s2) eqn:E'; auto.
  apply alike_of_fields; cbn [flash_color_index set_flash_color_index alarm_window
    alarm_state toplevels tk_fresh gui_queue history monitor]; auto; congruence.
Qed.

Lemma blind_call (cb : callback) : blind (call cb).
Proof. destruct cb; [apply blind_dismiss | apply blind_show]. Qed.

Lemma blind_drain (pending : list callback) : blind (drain pending).
Proof.
  induction pending as [|cb rest IH]; intros s1 s2 H; simpl; auto.
  apply IH, blind_call, blind_log.
  pose proof (alike_fields _ _ H) as (? & ? & ? & ? & ? & ? & ? & ?).
  apply alike_of_fields; simpl; auto.
Qed.

Lemma blind_check_gui_queue : blind check_gui_queue.
Proof.
  intros s1 s2 H. unfold check_gui_queue.
  pose proof (alike_fields _ _ H) as (_ & _ & _ & _ & _ & Hq & _).
  rewrite Hq. apply blind_drain, H.
Qed.

Lemma oblivious_ret {A : Type} (a : A) : oblivious (ret a).
Proof. intros s1 s2 H. auto. Qed.

Lemma oblivious_raise {A : Type} (e : exn) : oblivious (@raise A e).
Proof. intros s1 s2 H. auto. Qed.

Lemma oblivious_lift {A : Type} (r : res A) : oblivious (lift r).
Proof. intros s1 s2 H. auto. Qed.

Lemma oblivious_modify (f : system -> system) : blind f -> oblivious (modify f).
Proof. intros Hf s1 s2 H. simpl. auto. Qed.

Lemma oblivious_get_alarm_state : oblivious (get alarm_state).
Proof.
  intros s1 s2 H. simpl. split; auto.
  pose proof (alike_fields _ _ H) as (_ & Hs & _). rewrite Hs. reflexivity.
Qed.

Lemma oblivious_bind {A B : Type} (m : M A) (k : A -> M B) :
  oblivious m -> (forall a, oblivious (k a)) -> oblivious (bind m k).
Proof.
  intros Hm Hk s1 s2 H. unfold bind. destruct (Hm s1 s2 H) as [Hr Hs].
  destruct (m s1) as [[e1|a1] t1], (m s2) as [[e2|a2] t2]; simpl in *;
    try discriminate.
  - injection Hr as ->. split; auto.
  - injection Hr as ->. apply Hk, Hs.
Qed.

Lemma oblivious_when (b : bool) (m : M unit) : oblivious m -> oblivious (when b m).
Proof. destruct b; simpl; auto using oblivious_ret. Qed.

Lemma oblivious_try_finally {A : Type} (body : M A) (cleanup : M unit) :
  oblivious body -> oblivious cleanup -> oblivious (try_finally body cleanup).
Proof.
  intros Hb Hc s1 s2 H. unfold try_finally. destruct (Hb s1 s2 H) as [Hr Hs].
  destruct (body s1) as [r1 t1], (body s2) as [r2 t2]. simpl in *.
  destruct (Hc t1 t2 Hs) as [Hr' Hs'].
  destruct (cleanup t1) as [[e1|u1] v1], (cleanup t2) as [[e2|u2] v2]; simpl in *;
    try discriminate; auto.
  injection Hr' as ->. auto.
Qed.

Ltac oblivion :=
  repeat first
    [ apply oblivious_get_alarm_state
    | apply oblivious_ret
    | apply oblivious_raise
    | apply oblivious_lift
    | apply oblivious_when
    | apply oblivious_bind; [|intro]
    | apply oblivious_try_finally
    | apply oblivious_modify; first [apply blind_log | apply blind_put | apply blind_set_monitor]
    | match goal with |- oblivious (if ?b then _ else _) => destruct b end
    | match goal with |- oblivious (match ?o with Some _ => _ | None => _ end) => destruct o end ].

Lemma oblivious_loop_body (w : env) (l : locals) : oblivious (loop_body w l).
Proof.
  unfold loop_body, sleep, display_on_screen, send_email_alert, send_pushbullet_alert,
    gui_queue_put.
  oblivion.
Qed.

Lemma oblivious_handler (w : env) (e : exn) :
  oblivious (try_finally (except_clauses w e) finally_clause).
Proof.
  unfold except_clauses, finally_clause, display_on_screen, send_email_alert,
    send_pushbullet_alert, gui_queue_put.
  oblivion.
Qed.

(** The loop body reads only the previous reading from its locals. *)
Lemma loop_body_previous_only (w : env) (l1 l2 : locals) :
  dish_online_previous_state l1 = dish_online_previous_state l2 ->
  loop_body w l1 = loop_body w l2.
Proof.
  destruct l1 as [p1 v1], l2 as [p2 v2]. simpl. intros ->. reflexivity.
Qed.

Lemma blind_poll (w : env) : blind (poll w).
Proof.
  intros s1 s2 H. unfold poll.
  pose proof (alike_fields _ _ H) as (_ & _ & _ & _ & _ & _ & _ & Hm).
  destruct (monitor s1) as [l1|], (monitor s2) as [l2|]; simpl in Hm;
    try discriminate; auto.
  injection Hm as Hp. rewrite (loop_body_previous_only w l1 l2 Hp).
  destruct (oblivious_loop_body w l2 s1 s2 H) as [Hr Hs].
  destruct (loop_body w l2 s1) as [[e1|u1] t1], (loop_body w l2 s2) as [[e2|u2] t2];
    simpl in *; try discriminate; auto.
  injection Hr as ->.
  apply blind_set_monitor. apply (oblivious_handler w e2 t1 t2 Hs).
Qed.

Lemma blind_step (a : action) : blind (fun s => step s a).
Proof.
  destruct a as [w| | |]; simpl.
  - apply blind_poll.
  - apply blind_check_gui_queue.
  - apply blind_dismiss.
  - apply blind_flash.
Qed.

Lemma cycle_events_same_sinks (w1 w2 : env) (previous current raised : bool) :
  (forall x y, smtp_delivery w1 x y = smtp_delivery w2 x y) ->
  (forall x y, pushbullet_delivery w1 x y = pushbullet_delivery w2 x y) ->
  cycle_events w1 previous current raised = cycle_events w2 previous current raised.
Proof.
  intros Hs Hp. unfold cycle_events, online_events, offline_events, notify_events.
  rewrite !Hs, !Hp. reflexivity.
Qed.

Lemma alike_step (s1 s2 : system) (a1 a2 : action) :
  alike s1 s2 -> same_reachability a1 a2 -> alike (step s1 a1) (step s2 a2).
Proof.
  intros H [a | w1 w2 reachable p1 p2 H1 H2 Hs Hp].
  - apply (blind_step a), H.
  - simpl.
    pose proof (alike_fields _ _ H) as (Ew & Es & Ef & Et & Er & Eq & Eh & Em).
    destruct (monitor s1) as [l1|] eqn:M1, (monitor s2) as [l2|] eqn:M2; simpl in Em;
      try discriminate.
    + injection Em as Ep.
      rewrite (poll_normal w1 s1 l1 reachable p1 M1 H1).
      rewrite (poll_normal w2 s2 l2 reachable p2 M2 H2).
      rewrite Ew, Es, Ef, Et, Er, Eq, Eh, Ep.
      rewrite (cycle_events_same_sinks w1 w2 _ _ _ Hs Hp).
      apply alike_of_fields; reflexivity.
    + rewrite !poll_exited by assumption. exact H.
Qed.

Lemma alike_run (acts1 acts2 : list action) :
  Forall2 same_reachability acts1 acts2 ->
  forall s1 s2, alike s1 s2 -> alike (run s1 acts1) (run s2 acts2).
Proof.
  induction 1 as [|a1 a2 acts1 acts2 Ha _ IH]; intros s1 s2 H; simpl; auto.
  apply IH, alike_step; assumption.
Qed.

(** C9: two runs that take the same steps, except that the status fetch
    of their poll cycles may return different payloads (the ping results
    and everything else being the same), produce the same history (the
    same messages, sink calls, enqueued and applied commands, windows),
    the same queue and the same alarm state; they differ at most in the
    stored [dish_status_previous]. *)
Theorem status_payload_is_never_read (acts1 acts2 : list action) :
  Forall2 same_reachability acts1 acts2 ->
  let s1 := run boot acts1 in
  let s2 := run boot acts2 in
  history s1 = history s2 /\
  gui_queue s1 = gui_queue s2 /\
  alarm_state s1 = alarm_state s2 /\
  alarm_window s1 = alarm_window s2 /\
  toplevels s1 = toplevels s2 /\
  forget_status s1 = forget_status s2.
Proof.
  intros Hacts s1 s2.
  assert (H : alike s1 s2) by (apply alike_run; [exact Hacts | reflexivity]).
  pose proof (alike_fields _ _ H) as (Ew & Es & _ & Et & _ & Eq & Eh & _).
  repeat split; auto.
Qed.

Lemma status_payload_is_never_read_witness :
  history (run boot [Poll online; Tick; Poll offline; Tick]) =
  history (run boot [Poll online_stowed; Tick; Poll (quiet_world false ok_status); Tick]).
Proof.
  refine (proj1 (status_payload_is_never_read
                   [Poll online; Tick; Poll offline; Tick]
                   [Poll online_stowed; Tick; Poll (quiet_world false ok_status); Tick] _)).
  constructor; [|constructor; [|constructor; [|constructor; [|constructor]]]].
  - apply (same_probe online online_stowed true
             (JObj [("stowed", JBool false)]) (JObj [("stowed", JBool true)]));
      reflexivity.
  - apply same_step.
  - apply (same_probe offline (quiet_world false ok_status) false
             JNull (JObj [("stowed", JBool false)])); reflexivity.
  - apply same_step.
Defined.

(** * Further properties *)

(** ** The status fetch (lines 126-134) *)

Lemma raise_for_status_cases (r : response) :
  (400 <= status_code r < 600 /\ exists m, raise_for_status r = inl (mkExn HTTPError m)) \/
  (~ (400 <= status_code r < 600) /\ raise_for_status r = inr tt).
Proof.
  unfold raise_for_status.
  destruct (Z.leb_spec 400 (status_code r)), (Z.ltb_spec (status_code r) 500),
           (Z.leb_spec 500 (status_code r)), (Z.ltb_spec (status_code r) 600);
    simpl; try lia;
    first [ left; split; [lia | eexists; reflexivity] | right; split; [lia | reflexivity] ].
Qed.


(** X2: a payload other than [None] is returned exactly when the dish
    answered with a status outside 4xx and 5xx and a JSON body, and it
    is that body. *)
Theorem status_fetch_returns_the_body (w : env) (ip_address : string) (v : json) :
  v <> JNull ->
  (get_dish_status_json w ip_address = inr v <->
   exists r, requests_get w ("http://" ++ ip_address ++ "/DishyStatus") 5 = inr r /\
             ~ (400 <= status_code r < 600) /\
             body_json r = Some v).
Proof.
  intros Hv. unfold get_dish_status_json.
  destruct (requests_get w ("http://" ++ ip_address ++ "/DishyStatus") 5) as [e0|r]; simpl.
  - split.
    + destruct (isinstance e0 RequestException); intros H; [|discriminate].
      assert (JNull = v) by congruence. congruence.
    + intros (r & H & _). discriminate.
  - destruct (raise_for_status_cases r) as [(Hs & m & ->) | (Hs & ->)]; simpl.
    + split.
      * intros H. assert (JNull = v) by congruence. congruence.
      * intros (r' & H & Hs' & _). assert (r = r') by congruence. subst. contradiction.
    + unfold response_json. destruct (body_json r) as [v'|] eqn:Hb; simpl.
      * split.
        -- intros H. assert (v' = v) by congruence. subst. exists r. auto.
        -- intros (r' & H & _ & Hb'). assert (r = r') by congruence. subst. congruence.
      * split.
        -- intros H. assert (JNull = v) by congruence. congruence.
        -- intros (r' & H & _ & Hb'). assert (r = r') by congruence. subst. congruence.
Qed.

Lemma status_fetch_returns_the_body_witness :
  get_dish_status_json online DISHY_IP = inr (JObj [("stowed", JBool false)]).
Proof.
  apply status_fetch_returns_the_body; [discriminate|].
  exists (mkResponse 200 (Some (JObj [("stowed", JBool false)]))).
  repeat split; simpl; lia.
Defined.

(** ** What a poll cycle asks of the outside world (lines 117-124, 313-348) *)

Lemma except_clauses_same_sinks (w1 w2 : env) (e : exn) :
  (forall x y, smtp_delivery w1 x y = smtp_delivery w2 x y) ->
  (forall x y, pushbullet_delivery w1 x y = pushbullet_delivery w2 x y) ->
  except_clauses w1 e = except_clauses w2 e.
Proof.
  intros Hs Hp. unfold except_clauses, send_email_alert, send_pushbullet_alert.
  rewrite !Hs, !Hp. reflexivity.
Qed.

(** X3: a poll cycle depends on the outside world only through one ping
    of 192.168.100.1 (one packet, one second), one GET of
    http://192.168.100.1/DishyStatus with a five-second timeout, one
    ten-second sleep and the deliveries of the two sinks: two worlds
    that agree on these make the cycle do the same. *)
Theorem poll_asks_only_the_dish (w1 w2 : env) (s : system) :
  os_system w1 "ping -c 1 -W 1 192.168.100.1 > /dev/null 2>&1" =
  os_system w2 "ping -c 1 -W 1 192.168.100.1 > /dev/null 2>&1" ->
  requests_get w1 "http://192.168.100.1/DishyStatus" 5 =
  requests_get w2 "http://192.168.100.1/DishyStatus" 5 ->
  time_sleep w1 10 = time_sleep w2 10 ->
  (forall x y, smtp_delivery w1 x y = smtp_delivery w2 x y) ->
  (forall x y, pushbullet_delivery w1 x y = pushbullet_delivery w2 x y) ->
  poll w1 s = poll w2 s.
Proof.
  intros Hping Hget Hsleep Hs Hp.
  assert (Ep : check_dish_ping w1 DISHY_IP = check_dish_ping w2 DISHY_IP).
  { unfold check_dish_ping. cbn. rewrite Hping. reflexivity. }
  assert (Ef : get_dish_status_json w1 DISHY_IP = get_dish_status_json w2 DISHY_IP).
  { unfold get_dish_status_json. cbn. rewrite Hget. reflexivity. }
  assert (Eb : forall l, loop_body w1 l = loop_body w2 l).
  { intros l. unfold loop_body, sleep, send_email_alert, send_pushbullet_alert.
    unfold CHECK_INTERVAL_SECONDS. rewrite Ep, Ef, Hsleep, !Hs, !Hp. reflexivity. }
  unfold poll. destruct (monitor s) as [l|]; [|reflexivity].
  rewrite Eb. destruct (loop_body w2 l s) as [[e|u] s1]; [|reflexivity].
  rewrite (except_clauses_same_sinks w1 w2 e Hs Hp). reflexivity.
Qed.

Lemma poll_asks_only_the_dish_witness : poll offline boot = poll elsewhere_fine boot.
Proof. apply poll_asks_only_the_dish; reflexivity. Defined.

(** ** Who writes what (lines 231-350) *)

(** X4: the monitor thread never writes the alarm globals or the
    windows and never runs a callback: whatever happens in a poll cycle
    (failures included), [alarm_window], [alarm_state],
    [flash_color_index] and the windows are as before, and the cycle
    only appends to the history and to the queue. *)
Theorem monitor_thread_only_appends (w : env) (s : system) :
  alarm_window (poll w s) = alarm_window s /\
  alarm_state (poll w s) = alarm_state s /\
  flash_color_index (poll w s) = flash_color_index s /\
  toplevels (poll w s) = toplevels s /\
  exists new,
    history (poll w s) = history s ++ new /\
    gui_queue (poll w s) = gui_queue s ++ enqueued new /\
    applied new = [] /\
    surfaces_created new = [].
Proof.
  destruct (grows_poll w s) as [W S F T _ (new & Hh & Hq & Ha & Hc & _)].
  repeat split; auto. exists new. auto.
Qed.

(** X5: the Tk side ([check_gui_queue], the dismiss button, the flash
    timer) never calls a notification sink, never enqueues a command and
    never touches the locals of the monitor thread. *)
Theorem tk_side_never_notifies (s : system) (a : action) :
  match a with
  | Poll _ => True
  | _ =>
      monitor (step s a) = monitor s /\
      notifications (emitted s (step s a)) = [] /\
      enqueued (emitted s (step s a)) = []
  end.
Proof.
  pose proof (gui_only_step s a) as H.
  destruct a; auto; destruct H as [Hm (new & Hh & He & Hn)];
    rewrite (emitted_app _ _ new Hh); auto.
Qed.

(** ** The flash timer (lines 294-300) *)

Lemma flash_index_call (cb : callback) (s : system) :
  (flash_color_index s < 2)%nat -> (flash_color_index (call cb s) < 2)%nat.
Proof.
  intros H. destruct cb; simpl.
  - unfold dismiss_alarm_thread_safe. destruct (alarm_window s); simpl; exact H.
  - unfold show_visual_alarm_thread_safe. destruct (alarm_state s); simpl; [exact H|lia].
Qed.

Lemma flash_index_drain (pending : list callback) (s : system) :
  (flash_color_index s < 2)%nat -> (flash_color_index (drain pending s) < 2)%nat.
Proof.
  revert s. induction pending as [|cb rest IH]; intros s H; simpl; auto.
  apply IH, flash_index_call. simpl. exact H.
Qed.

Lemma flash_index_step (s : system) (a : action) :
  (flash_color_index s < 2)%nat -> (flash_color_index (step s a) < 2)%nat.
Proof.
  intros H. destruct a as [w| | |]; simpl.
  - rewrite (grows_flash _ _ (grows_poll w s)). exact H.
  - apply flash_index_drain, H.
  - unfold dismiss_alarm_thread_safe. destruct (alarm_window s); simpl; exact H.
  - unfold flash_background_thread_safe.
    destruct (alarm_window s), (alarm_state s); auto.
    unfold set_flash_color_index. cbn [flash_color_index].
    change (List.length flash_colors) with 2%nat.
    apply Nat.mod_upper_bound. discriminate.
Qed.




(** ** The alarm over a run (lines 242-292, 316-333) *)

Lemma last_cons_default {A : Type} (a d : A) (l : list A) : last (a :: l) d = last l a.
Proof.
  revert a d. induction l as [|b l IH]; intros a d; [reflexivity|].
  change (last (a :: b :: l) d) with (last (b :: l) d). rewrite !IH. reflexivity.
Qed.

(** One poll followed by one tick, from a state in which the alarm
    follows the readings. *)
Lemma tracking_poll_tick (previous seen : bool) (s : system) (w : env)
    (reachable : bool) (payload : json) :
  tracking previous seen s ->
  probe w = Some (reachable, payload) ->
  tracking reachable (seen || reachable) (run s [Poll w; Tick]).
Proof.
  intros [(l & Hm & Hl) Hq [Ht Hs] Ha Hseen] Hp.
  unfold run. cbn [fold_left step].
  rewrite (poll_normal w s l reachable payload Hm Hp), Hl, Hq.
  destruct s as [aw raised fl tl fr q mo hi]. simpl in Ht, Hs, Ha |- *.
  unfold cycle_events.
  destruct previous, reachable; simpl in Ha;
    rewrite ?enqueued_app, ?enqueued_online_events, ?enqueued_offline_events;
    cbn [enqueued flat_map app].
  - (* online, still online *)
    subst raised. destruct aw; [discriminate|]. subst tl.
    unfold check_gui_queue. record_simpl.
    constructor; simpl; auto.
    + exists (mkLocals true payload). auto.
    + split; reflexivity.
    + intros _. apply orb_true_r.
  - (* online, now offline *)
    subst raised. destruct aw; [discriminate|]. subst tl.
    unfold check_gui_queue. record_simpl.
    unfold show_visual_alarm_thread_safe, new_toplevel. record_simpl.
    constructor; simpl; auto.
    + exists (mkLocals false payload). auto.
    + split; reflexivity.
    + rewrite Hseen by reflexivity. reflexivity.
    + discriminate.
  - (* offline, now online *)
    subst raised. destruct seen.
    + destruct aw as [a|]; [|discriminate]. subst tl.
      unfold check_gui_queue. record_simpl.
      unfold dismiss_alarm_thread_safe, destroy. record_simpl.
      rewrite Nat.eqb_refl.
      constructor; simpl; auto.
      * exists (mkLocals true payload). auto.
      * split; reflexivity.
    + destruct aw; [discriminate|]. subst tl.
      unfold check_gui_queue. record_simpl.
      constructor; simpl; auto.
      * exists (mkLocals true payload). auto.
      * split; reflexivity.
  - (* offline, still offline *)
    subst raised.
    unfold check_gui_queue. record_simpl.
    constructor; simpl; auto.
    + exists (mkLocals false payload). auto.
    + split; simpl; congruence.
    + rewrite orb_false_r. congruence.
    + discriminate.
Qed.

Lemma readings_drained_cons (w : env) (ws : list env) (reachable : bool) (payload : json) :
  probe w = Some (reachable, payload) ->
  readings (drained_run (w :: ws)) = reachable :: readings (drained_run ws).
Proof.
  intros Hp. unfold readings, drained_run. simpl. rewrite Hp. reflexivity.
Qed.

Lemma tracking_drained_run (ws : list env) :
  Forall (fun w => probe w <> None) ws ->
  forall (previous seen : bool) (s : system),
    tracking previous seen s ->
    tracking (last (readings (drained_run ws)) previous)
             (seen || existsb (fun r => r) (readings (drained_run ws)))
             (run s (drained_run ws)).
Proof.
  induction 1 as [|w ws Hw _ IH]; intros previous seen s Htr.
  - simpl. rewrite orb_false_r. exact Htr.
  - destruct (probe w) as [[reachable payload]|] eqn:Hp; [|congruence].
    rewrite (readings_drained_cons w ws reachable payload Hp).
    change (drained_run (w :: ws)) with ([Poll w; Tick] ++ drained_run ws).
    rewrite run_app, last_cons_default. simpl existsb. rewrite orb_assoc.
    apply IH. apply (tracking_poll_tick previous seen s w reachable payload Htr Hp).
Qed.

Lemma tracking_boot : tracking false false boot.
Proof.
  constructor; simpl; auto; try discriminate;
    try (split; reflexivity); try (exists (mkLocals false JNull); auto).
Qed.

(** X7: when every poll has its probe outcome and the queue is drained
    after each poll, and nobody presses the dismiss button, the alarm is
    up exactly when the last reading is Offline and some earlier reading
    was Online; one window is then shown, and none otherwise. *)
Theorem alarm_follows_the_outage (ws : list env) :
  Forall (fun w => probe w <> None) ws ->
  let s := run boot (drained_run ws) in
  let rs := readings (drained_run ws) in
  alarm_state s = negb (last rs false) && existsb (fun r => r) rs /\
  List.length (toplevels s) = (if alarm_state s then 1 else 0)%nat.
Proof.
  intros Hws s rs.
  destruct (tracking_drained_run ws Hws false false boot tracking_boot)
    as [_ _ [Ht Hs] Ha _].
  fold s rs in Ht, Hs, Ha. split; [exact Ha|].
  rewrite Ht, Hs. destruct (alarm_window s); reflexivity.
Qed.

Lemma alarm_follows_the_outage_witness :
  alarm_state (run boot (drained_run [offline; online; offline; offline])) = true /\
  alarm_state (run boot (drained_run [offline; online; offline; online])) = false.
Proof.
  split.
  - refine (proj1 (alarm_follows_the_outage [offline; online; offline; offline] _)).
    repeat constructor; discriminate.
  - refine (proj1 (alarm_follows_the_outage [offline; online; offline; online] _)).
    repeat constructor; discriminate.
Defined.

(** ** Leaving the loop without an [Exception] (lines 340-342, 349-350) *)

Lemma handler_not_Exception (w : env) (e : exn) (s : system) :
  isinstance e Exception = false ->
  snd (try_finally (except_clauses w e) finally_clause s) =
  log (Printed "Background monitoring thread exiting.")
      (if isinstance e KeyboardInterrupt
       then log (Printed "Starlink Monitor stopped by user (via console).") s
       else s).
Proof.
  intros He. unfold try_finally, except_clauses, finally_clause. rewrite He.
  destruct (isinstance e KeyboardInterrupt); reflexivity.
Qed.

(** X8: when a poll cycle is left by a [KeyboardInterrupt], or by any
    other exception that is not an [Exception], no sink is called and no
    command is enqueued: the thread prints its stop message (for the
    interrupt only) and its exit message, and is gone. *)
Theorem interrupt_stops_quietly (w : env) (s s1 : system) (l : locals) (e : exn) :
  monitor s = Some l ->
  loop_body w l s = (inl e, s1) ->
  isinstance e Exception = false ->
  let s2 := poll w s in
  messages (emitted s1 s2) =
    (if isinstance e KeyboardInterrupt
     then ["Starlink Monitor stopped by user (via console)."] else []) ++
    ["Background monitoring thread exiting."] /\
  notifications (emitted s1 s2) = [] /\
  enqueued (emitted s1 s2) = [] /\
  gui_queue s2 = gui_queue s1 /\
  monitor s2 = None.
Proof.
  intros Hm Hb He s2.
  assert (Hs2 : s2 = poll w s) by reflexivity.
  unfold poll in Hs2. rewrite Hm, Hb, (handler_not_Exception w e s1 He) in Hs2.
  destruct (isinstance e KeyboardInterrupt).
  - assert (Hem : emitted s1 s2 =
                  [Printed "Starlink Monitor stopped by user (via console).";
                   Printed "Background monitoring thread exiting."]).
    { apply emitted_app. rewrite Hs2. simpl. rewrite <- app_assoc. reflexivity. }
    rewrite Hem, Hs2. repeat split.
  - assert (Hem : emitted s1 s2 = [Printed "Background monitoring thread exiting."]).
    { apply emitted_app. rewrite Hs2. reflexivity. }
    rewrite Hem, Hs2. repeat split.
Qed.

Lemma interrupt_stops_quietly_witness :
  notifications (emitted boot (poll interrupted boot)) = [] /\
  monitor (poll interrupted boot) = None.
Proof.
  assert (Hb : loop_body interrupted (mkLocals false JNull) boot =
               (inl (mkExn KeyboardInterrupt ""),
                set_monitor (Some (mkLocals false JNull)) boot))
    by (vm_compute; reflexivity).
  pose proof (interrupt_stops_quietly interrupted boot _ (mkLocals false JNull) _
                eq_refl Hb eq_refl) as (_ & Hn & _ & _ & Hm).
  assert (E : emitted (set_monitor (Some (mkLocals false JNull)) boot) (poll interrupted boot)
              = emitted boot (poll interrupted boot)) by reflexivity.
  rewrite E in Hn. split; assumption.
Defined.

(** ** The error alert on the screen (lines 242-284, 343-348) *)





(** ** The first monitor: what it keeps (lines 43-214) *)

Section LegacyFootprint.

Variable R : program -> program -> Prop.

Hypothesis R_refl : forall p, R p p.

Hypothesis R_trans : forall p1 p2 p3, R p1 p2 -> R p2 p3 -> R p1 p3.

Lemma lwithin_ret {A : Type} (a : A) : lwithin R (lret a).
Proof. intros p. apply R_refl. Qed.

Lemma lwithin_raise {A : Type} (e : exn) : lwithin R (@lraise A e).
Proof. intros p. apply R_refl. Qed.

Lemma lwithin_bind {A B : Type} (m : LM A) (k : A -> LM B) :
  lwithin R m -> (forall a, lwithin R (k a)) -> lwithin R (lbind m k).
Proof.
  intros Hm Hk p. unfold lbind. specialize (Hm p).
  destruct (m p) as [[e|a] p1]; simpl in *; auto.
  eapply R_trans; [exact Hm | apply Hk].
Qed.

Lemma lwithin_when (b : bool) (m : LM unit) : lwithin R m -> lwithin R (lwhen b m).
Proof. destruct b; simpl; auto using lwithin_ret. Qed.

Lemma lwithin_try_finally {A : Type} (body : LM A) (cleanup : LM unit) :
  lwithin R body -> lwithin R cleanup -> lwithin R (ltry_finally body cleanup).
Proof.
  intros Hb Hc p. unfold ltry_finally. specialize (Hb p).
  destruct (body p) as [r p1]. specialize (Hc p1).
  destruct (cleanup p1) as [[e|u] p2]; simpl in *; eauto.
Qed.

End LegacyFootprint.

Lemma keeps_alarm_sound_refl (p : program) : keeps_alarm_sound p p.
Proof. intros H. exact H. Qed.

Lemma keeps_alarm_sound_trans (p1 p2 p3 : program) :
  keeps_alarm_sound p1 p2 -> keeps_alarm_sound p2 p3 -> keeps_alarm_sound p1 p3.
Proof. unfold keeps_alarm_sound. auto. Qed.

(** Code that only appends to the history and the queue keeps the alarm
    sound. *)
Lemma alarm_sound_grows (s s' : system) : grows s s' -> alarm_sound s -> alarm_sound s'.
Proof.
  intros [W S F T _ _] [[Ht Hs] Hf]. unfold alarm_sound, windows_coherent.
  rewrite W, S, F, T. auto.
Qed.

Lemma keeps_on_shared {A : Type} (m : M A) :
  within grows m -> lwithin keeps_alarm_sound (on_shared m).
Proof.
  intros Hm p. unfold on_shared. specialize (Hm (shared p)).
  destruct (m (shared p)) as [r s']. simpl in *.
  intros H. apply (alarm_sound_grows (shared p) s' Hm H).
Qed.

Lemma dismiss_alarm_is_the_same : dismiss_alarm = dismiss_alarm_thread_safe.
Proof. reflexivity. Qed.

Lemma flash_background_is_the_same : flash_background = flash_background_thread_safe.
Proof. reflexivity. Qed.

Lemma alarm_sound_dismiss (s : system) : alarm_sound s -> alarm_sound (dismiss_alarm s).
Proof.
  intros [Hw Hf]. split.
  - apply (windows_coherent_call CbDismiss s Hw).
  - apply (flash_index_call CbDismiss s Hf).
Qed.

Lemma alarm_sound_flash (s : system) : alarm_sound s -> alarm_sound (flash_background s).
Proof.
  intros [[Ht Hs] Hf]. split.
  - unfold flash_background, windows_coherent.
    destruct (alarm_window s) eqn:Ew, (alarm_state s) eqn:Es;
      cbn [set_flash_color_index alarm_window alarm_state toplevels];
      split; congruence.
  - apply (flash_index_step s Flash Hf).
Qed.

Lemma alarm_sound_show (alert_message : string) (s : system) :
  alarm_sound s -> alarm_sound (show_visual_alarm alert_message s).
Proof.
  intros H. unfold show_visual_alarm. destruct (alarm_state s) eqn:Es; [exact H|].
  destruct H as [[Ht Hs] Hf]. rewrite Es in Hs.
  destruct (alarm_window s) eqn:Ew; [discriminate|]. simpl in Ht.
  apply alarm_sound_flash. unfold new_toplevel.
  split; [split|]; simpl; rewrite ?Ht; auto.
Qed.

Lemma alarm_sound_step (s : system) (a : action) : alarm_sound s -> alarm_sound (step s a).
Proof.
  intros H. destruct a as [w| | |]; simpl.
  - apply (alarm_sound_grows s _ (grows_poll w s) H).
  - destruct H as [Hw Hf]. split.
    + apply windows_coherent_drain, Hw.
    + apply flash_index_drain, Hf.
  - apply (alarm_sound_dismiss s H).
  - apply (alarm_sound_flash s H).
Qed.

Ltac legacy_footprint :=
  repeat first
    [ apply keeps_on_shared;
        first [ apply grows_display | apply grows_email | apply grows_push | apply grows_sleep
              | apply within_lift; apply grows_refl
              | apply within_get; apply grows_refl ]
    | apply lwithin_ret; apply keeps_alarm_sound_refl
    | apply lwithin_raise; apply keeps_alarm_sound_refl
    | apply lwithin_when; [apply keeps_alarm_sound_refl|]
    | apply lwithin_bind; [apply keeps_alarm_sound_trans| |intro]
    | apply lwithin_try_finally; [apply keeps_alarm_sound_trans| |]
    | match goal with |- lwithin _ (if ?b then _ else _) => destruct b end
    | match goal with |- lwithin _ (match ?o with Some _ => _ | None => _ end) => destruct o end
    | match goal with |- lwithin _ (on_shared (modify dismiss_alarm)) =>
        let p := fresh "p" in let H := fresh "H" in
        intros p H; apply alarm_sound_dismiss; exact H end
    | match goal with |- lwithin _ (on_shared (modify (tk_quit _))) =>
        let p := fresh "p" in let H := fresh "H" in intros p H; exact H end
    | match goal with |- lwithin _ (set_legacy_locals _) =>
        let p := fresh "p" in let H := fresh "H" in intros p H; exact H end
    | match goal with |- lwithin _ (start_alarm_thread _) =>
        let p := fresh "p" in let H := fresh "H" in intros p H; exact H end ].

Lemma keeps_legacy_loop_body (w : env) (l : locals) :
  lwithin keeps_alarm_sound (legacy_loop_body w l).
Proof. unfold legacy_loop_body. legacy_footprint. Qed.

Lemma keeps_legacy_handler (w : env) (e : exn) :
  lwithin keeps_alarm_sound (ltry_finally (legacy_except_clauses w e) legacy_finally_clause).
Proof. unfold legacy_except_clauses, legacy_finally_clause. legacy_footprint. Qed.

Lemma alarm_sound_legacy_poll (w : env) (p : program) :
  alarm_sound (shared p) -> alarm_sound (shared (legacy_poll w p)).
Proof.
  intros H. unfold legacy_poll. destruct (legacy_locals p) as [l|]; [|exact H].
  pose proof (keeps_legacy_loop_body w l p) as Hb.
  destruct (legacy_loop_body w l p) as [[e|u] p1]; simpl in Hb; [|exact (Hb H)].
  pose proof (keeps_legacy_handler w e p1) as Hh.
  destruct (ltry_finally (legacy_except_clauses w e) legacy_finally_clause p1) as [r p2].
  simpl in *. exact (Hh (Hb H)).
Qed.

Lemma alarm_sound_main_step (p : program) (a : main_action) :
  alarm_sound (shared p) -> alarm_sound (shared (main_step p a)).
Proof.
  intros H. destruct a as [a|w|n| |]; simpl.
  - apply alarm_sound_step, H.
  - apply alarm_sound_legacy_poll, H.
  - unfold run_alarm_thread. destruct (nth_error (alarm_threads p) n); simpl; auto.
    apply alarm_sound_show, H.
  - apply alarm_sound_dismiss, H.
  - apply alarm_sound_flash, H.
Qed.

Lemma alarm_sound_main_boot : alarm_sound (shared main_boot).
Proof. split; [split; reflexivity | simpl; lia]. Qed.

Lemma alarm_sound_reachable (acts : list main_action) :
  alarm_sound (shared (main_run main_boot acts)).
Proof.
  assert (G : forall p, alarm_sound (shared p) -> alarm_sound (shared (main_run p acts))).
  { induction acts as [|a acts IH]; intros p H; simpl; auto.
    apply IH, alarm_sound_main_step, H. }
  apply G, alarm_sound_main_boot.
Qed.

(** X10: with both monitors running as the script starts them, and the
    alarm threads, the buttons and the flash timers of either design
    interleaved in any order (each as one step), there is never more
    than one alarm window; it is the one in [alarm_window], it exists
    exactly when [alarm_state] is set, and the flash index always
    selects a colour. *)
Theorem whole_script_has_one_alarm (acts : list main_action) :
  let s := shared (main_run main_boot acts) in
  (List.length (toplevels s) <= 1)%nat /\
  toplevels s = window_list (alarm_window s) /\
  alarm_state s = is_some (alarm_window s) /\
  (current_color s = Some "red" \/ current_color s = Some "black").
Proof.
  intros s.
  destruct (alarm_sound_reachable acts) as [[Ht Hs] Hf]. fold s in Ht, Hs, Hf.
  repeat split; auto.
  - rewrite Ht. destruct (alarm_window s); simpl; lia.
  - unfold current_color.
    assert (Hfl : flash_color_index s = 0%nat \/ flash_color_index s = 1%nat) by lia.
    destruct Hfl as [-> | ->]; simpl; auto.
Qed.

(** ** The first monitor: a poll cycle in which no call fails *)

Lemma legacy_poll_normal (w : env) (p : program) (l : locals)
    (reachable : bool) (payload : json) :
  legacy_locals p = Some l ->
  probe w = Some (reachable, payload) ->
  let s := shared p in
  let previous := dish_online_previous_state l in
  let dismissing := negb previous && reachable && alarm_state s in
  legacy_poll w p =
  mkProgram
    (mkSystem (if dismissing then None else alarm_window s)
              (if dismissing then false else alarm_state s)
              (flash_color_index s)
              (if dismissing
               then match alarm_window s with
                    | Some x => remove_window x (toplevels s)
                    | None => toplevels s
                    end
               else toplevels s)
              (tk_fresh s) (gui_queue s) (monitor s)
              (history s ++
               legacy_cycle_events w previous reachable (alarm_state s) (alarm_window s)))
    (Some (mkLocals reachable payload))
    (alarm_threads p ++
     (if previous && negb reachable && negb (alarm_state s)
      then ["STARLINK OFFLINE! Check Dish!"] else [])).
Proof.
  intros Hl Hp. apply probe_Some in Hp. destruct Hp as (Hping & Hfetch & Hsleep).
  destruct p as [s ll th]. destruct s as [aw raised fl tl fr q mo hi].
  cbn in Hl. subst ll. destruct l as [previous status].
  unfold legacy_poll, legacy_loop_body, sleep, lbind, on_shared, lift, bind.
  cbn [legacy_locals shared alarm_threads dish_online_previous_state alarm_state
       alarm_window flash_color_index toplevels tk_fresh gui_queue monitor history].
  rewrite Hping, Hfetch.
  unfold legacy_cycle_events, dismissal_events, online_events, offline_events,
    notify_events, sink_log.
  destruct reachable, previous, (truthy payload);
    cbv [lwhen when negb lret ret send_email_alert send_pushbullet_alert bind lbind
         on_shared modify get display_on_screen set_legacy_locals start_alarm_thread
         dismiss_alarm destroy andb];
    cbn [shared legacy_locals alarm_threads];
    repeat match goal with
           | |- context [smtp_delivery w ?a ?b] => destruct (smtp_delivery w a b)
           | |- context [pushbullet_delivery w ?a ?b] => destruct (pushbullet_delivery w a b)
           end;
    destruct raised; try destruct aw;
    cbn; rewrite ?Hsleep; record_simpl;
    rewrite ?app_nil_r, <- ?app_assoc; reflexivity.
Qed.

Lemma notifications_legacy_cycle_events (w : env) (previous current raised : bool)
    (shown : option window) :
  notifications (legacy_cycle_events w previous current raised shown) =
  announcement (detect previous current).
Proof.
  unfold legacy_cycle_events, dismissal_events, online_events, offline_events,
    notify_events, sink_log, announcement.
  destruct previous, current; try reflexivity;
    repeat match goal with
           | |- context [smtp_delivery w ?a ?b] => destruct (smtp_delivery w a b)
           | |- context [pushbullet_delivery w ?a ?b] => destruct (pushbullet_delivery w a b)
           end;
    destruct raised, shown; reflexivity.
Qed.

Lemma notifications_cycle_events (w : env) (previous current raised : bool) :
  notifications (cycle_events w previous current raised) =
  announcement (detect previous current).
Proof.
  pose proof (observed_cycle_events w previous current raised) as H.
  unfold observed in H. unfold announcement. rewrite <- H. reflexivity.
Qed.

Lemma monitor_show_visual_alarm (alert_message : string) (s : system) :
  monitor (show_visual_alarm alert_message s) = monitor s.
Proof.
  unfold show_visual_alarm. destruct (alarm_state s); [reflexivity|].
  unfold flash_background, new_toplevel. simpl. reflexivity.
Qed.

(** Steps other than its own poll leave the locals of the first
    monitor alone. *)
Lemma legacy_locals_other_step (p : program) (a : main_action) :
  match a with
  | LegacyPoll _ => True
  | _ => legacy_locals (main_step p a) = legacy_locals p
  end.
Proof.
  destruct a; simpl; auto.
  unfold run_alarm_thread. destruct (nth_error (alarm_threads p) n); reflexivity.
Qed.

(** Steps other than its own poll leave the locals of the queue-based
    monitor alone, as long as no poll cycle of the first monitor
    fails. *)
Lemma monitor_other_step (p : program) (a : main_action) :
  match a with
  | Queued (Poll _) => True
  | LegacyPoll w => legacy_locals p <> None -> probe w <> None ->
                    monitor (shared (main_step p a)) = monitor (shared p)
  | _ => monitor (shared (main_step p a)) = monitor (shared p)
  end.
Proof.
  destruct a as [a|w|n| |]; simpl.
  - destruct a; auto.
    + apply (monitor_gui_step (shared p) Tick).
    + apply (monitor_gui_step (shared p) Click).
    + apply (monitor_gui_step (shared p) Flash).
  - intros Hl Hp.
    destruct (legacy_locals p) as [l|] eqn:El; [|congruence].
    destruct (probe w) as [[b v]|] eqn:Ep; [|congruence].
    rewrite (legacy_poll_normal w p l b v El Ep). reflexivity.
  - unfold run_alarm_thread. destruct (nth_error (alarm_threads p) n); simpl; auto.
    apply monitor_show_visual_alarm.
  - apply (monitor_gui_step (shared p) Click).
  - apply (monitor_gui_step (shared p) Flash).
Qed.

Lemma both_monitors_notify (acts : list main_action) :
  no_failed_poll acts ->
  forall (p : program) (l1 l2 : locals),
    legacy_locals p = Some l1 ->
    monitor (shared p) = Some l2 ->
    legacy_notified p acts =
      map announcement (detect_all (dish_online_previous_state l1) (legacy_readings acts)) /\
    queued_notified p acts =
      map announcement (detect_all (dish_online_previous_state l2) (queued_readings acts)).
Proof.
  induction 1 as [|a acts Ha _ IH]; intros p l1 l2 H1 H2; [split; reflexivity|].
  destruct a as [[w| | |]|w|n| |].
  - (* the queue-based monitor polls *)
    destruct (probe w) as [[b v]|] eqn:Ep; [|congruence].
    destruct (IH (main_step p (Queued (Poll w))) l1 (mkLocals b v)) as [IH1 IH2].
    { exact H1. }
    { simpl. rewrite (poll_normal w (shared p) l2 b v H2 Ep). reflexivity. }
    split.
    + exact IH1.
    + unfold queued_readings. simpl flat_map. fold (queued_readings acts).
      unfold reading_of at 1. rewrite Ep. simpl.
      rewrite (emitted_poll_normal w (shared p) l2 b v H2 Ep), notifications_cycle_events.
      f_equal. exact IH2.
  - destruct (IH (main_step p (Queued Tick)) l1 l2) as [IH1 IH2]; auto.
    simpl. rewrite <- H2. apply (monitor_gui_step (shared p) Tick).
  - destruct (IH (main_step p (Queued Click)) l1 l2) as [IH1 IH2]; auto.
    simpl. rewrite <- H2. apply (monitor_gui_step (shared p) Click).
  - destruct (IH (main_step p (Queued Flash)) l1 l2) as [IH1 IH2]; auto.
    simpl. rewrite <- H2. apply (monitor_gui_step (shared p) Flash).
  - (* the first monitor polls *)
    destruct (probe w) as [[b v]|] eqn:Ep; [|congruence].
    pose proof (legacy_poll_normal w p l1 b v H1 Ep) as E. cbv zeta in E.
    destruct (IH (main_step p (LegacyPoll w)) (mkLocals b v) l2) as [IH1 IH2].
    { simpl. rewrite E. reflexivity. }
    { simpl. rewrite E. exact H2. }
    split.
    + unfold legacy_readings. simpl flat_map. fold (legacy_readings acts).
      unfold reading_of at 1. rewrite Ep. simpl.
      assert (Em : emitted (shared p) (shared (legacy_poll w p)) =
                   legacy_cycle_events w (dish_online_previous_state l1) b
                     (alarm_state (shared p)) (alarm_window (shared p))).
      { apply emitted_app. rewrite E. reflexivity. }
      rewrite Em, notifications_legacy_cycle_events. f_equal. exact IH1.
    + exact IH2.
  - pose proof (legacy_locals_other_step p (AlarmThread n)) as E1.
    pose proof (monitor_other_step p (AlarmThread n)) as E2. cbv beta iota in E1, E2.
    destruct (IH (main_step p (AlarmThread n)) l1 l2) as [IH1 IH2]; try congruence.
    split; assumption.
  - destruct (IH (main_step p LegacyDismiss) l1 l2) as [IH1 IH2]; auto.
    simpl. rewrite <- H2. apply (monitor_gui_step (shared p) Click).
  - destruct (IH (main_step p LegacyFlash) l1 l2) as [IH1 IH2]; auto.
    simpl. rewrite <- H2. apply (monitor_gui_step (shared p) Flash).
Qed.

(** X11: the script runs two monitors, and each of them tells the sinks
    every transition of its own readings: over any run of the whole
    script in which every probe has an outcome, the sink calls of the
    poll cycles of [monitor_starlink] are those of the detector run on
    its ping results, and so are those of [monitor_starlink_threaded] on
    its own.  A transition that both monitors read is notified
    twice. *)
Theorem each_monitor_notifies_every_transition (acts : list main_action) :
  no_failed_poll acts ->
  legacy_notified main_boot acts =
    map announcement (detect_all false (legacy_readings acts)) /\
  queued_notified main_boot acts =
    map announcement (detect_all false (queued_readings acts)).
Proof.
  intros H.
  apply (both_monitors_notify acts H main_boot (mkLocals false JNull) (mkLocals false JNull));
    reflexivity.
Qed.

Lemma each_monitor_notifies_every_transition_witness :
  legacy_notified main_boot [LegacyPoll online; Queued (Poll online)] =
    [announcement (Some OfflineToOnline)] /\
  queued_notified main_boot [LegacyPoll online; Queued (Poll online)] =
    [announcement (Some OfflineToOnline)].
Proof.
  refine (each_monitor_notifies_every_transition
            [LegacyPoll online; Queued (Poll online)] _).
  repeat constructor; discriminate.
Defined.

(** X12: when [monitor_starlink] reads the dish back online while an
    alarm is up, it takes the alarm down itself, within the same poll
    cycle: the window is destroyed and the flag reset when the cycle
    ends, and nothing is put on the queue. *)
Theorem first_monitor_dismisses_at_once
    (acts : list main_action) (w : env) (l : locals) (payload : json) :
  let p := main_run main_boot acts in
  alarm_state (shared p) = true ->
  legacy_locals p = Some l ->
  dish_online_previous_state l = false ->
  probe w = Some (true, payload) ->
  let p' := legacy_poll w p in
  alarm_state (shared p') = false /\
  alarm_window (shared p') = None /\
  toplevels (shared p') = [] /\
  gui_queue (shared p') = gui_queue (shared p) /\
  In (Printed "Alarm dismissed.") (emitted (shared p) (shared p')).
Proof.
  intros p Hup Hl Hprev Hp p'.
  destruct (alarm_sound_reachable acts) as [[Ht Hs] _]. fold p in Ht, Hs.
  assert (E : p' = legacy_poll w p) by reflexivity.
  rewrite (legacy_poll_normal w p l true payload Hl Hp) in E. cbv zeta in E.
  rewrite Hprev, Hup in E. simpl in E.
  rewrite Hup in Hs. destruct (alarm_window (shared p)) as [x|] eqn:Ew; [|discriminate].
  simpl in Ht. rewrite Ht in E. rewrite remove_window_single in E.
  assert (Em : emitted (shared p) (shared p') =
               legacy_cycle_events w false true true (Some x)).
  { apply emitted_app. rewrite E. reflexivity. }
  rewrite Em, E. cbn [shared alarm_state alarm_window toplevels gui_queue].
  repeat split.
  unfold legacy_cycle_events, dismissal_events.
  apply in_or_app. left. apply in_or_app. right. simpl. auto.
Qed.

Lemma first_monitor_dismisses_at_once_witness :
  alarm_state (shared (main_run main_boot
                  [LegacyPoll online; LegacyPoll offline; AlarmThread 0%nat])) = true /\
  alarm_state (shared (legacy_poll online
                 (main_run main_boot
                    [LegacyPoll online; LegacyPoll offline; AlarmThread 0%nat]))) = false.
Proof.
  assert (Hup : alarm_state (shared (main_run main_boot
                  [LegacyPoll online; LegacyPoll offline; AlarmThread 0%nat])) = true)
    by (vm_compute; reflexivity).
  assert (Hl : legacy_locals (main_run main_boot
                  [LegacyPoll online; LegacyPoll offline; AlarmThread 0%nat])
               = Some (mkLocals false JNull)) by (vm_compute; reflexivity).
  assert (Hp : probe online = Some (true, JObj [("stowed", JBool false)]))
    by (vm_compute; reflexivity).
  split; [exact Hup|].
  exact (proj1 (first_monitor_dismisses_at_once
                  [LegacyPoll online; LegacyPoll offline; AlarmThread 0%nat]
                  online (mkLocals false JNull) (JObj [("stowed", JBool false)])
                  Hup Hl eq_refl Hp)).
Defined.

(** ** The first monitor: a poll cycle in which a call fails *)




